(** * LyricGenerator: a shallow embedding of [lyric_generator.py]

    The development follows the three core classes of the program:
    [LrcParser] (the LRC lyric parser), [FrameRenderer] (layout of the
    lyric lines of one frame and their compositing) and [ExportThread]
    (the loop that streams the frames to the encoder), with the search
    for the encoder ([get_ffmpeg_path]) and the preview of the window
    ([update_preview]).

    Python values are modelled as the interpreter has them: [float] is the
    IEEE-754 binary64 type of the kernel, [int] is [Z], [str] is a list of
    Unicode code points, and an exception is a value of [result]. *)

From Stdlib Require Import String Ascii ZArith NArith List Lia Bool Floats.
From Stdlib Require Import Sorting.Sorted Sorting.Permutation.
Import ListNotations.
Open Scope Z_scope.

#[local] Set Warnings "-inexact-float".

(* ------------------------------------------------------------------ *)
(** * Python values *)
(* ------------------------------------------------------------------ *)

Module Py.

(** ** Exceptions *)

Inductive exn : Type :=
| ValueError
| TypeError
| OverflowError
| OSError.

Inductive result (A : Type) : Type :=
| Ok (a : A)
| Raise (e : exn).

Arguments Ok {A} a.
Arguments Raise {A} e.

Definition bind {A B} (m : result A) (k : A -> result B) : result B :=
  match m with
  | Ok a => k a
  | Raise e => Raise e
  end.

Notation "x <- m ;; k" := (bind m (fun x => k))
  (at level 61, m at next level, right associativity).

(** ** Strings: sequences of code points *)

Definition str : Type := list N.

Definition lit (s : string) : str :=
  map (fun c => N_of_ascii c) (list_ascii_of_string s).

(** [str.isspace] on one code point, the set [str.strip()] removes. *)
Definition isspace (c : N) : bool :=
  (((9 <=? c) && (c <=? 13)) || ((28 <=? c) && (c <=? 32))
   || (c =? 133) || (c =? 160) || (c =? 5760)
   || ((8192 <=? c) && (c <=? 8202))
   || (c =? 8232) || (c =? 8233) || (c =? 8239) || (c =? 8287)
   || (c =? 12288))%N.

Fixpoint lstrip (s : str) : str :=
  match s with
  | [] => []
  | c :: r => if isspace c then lstrip r else s
  end.

(** [rstrip] keeps a character when it is not a space or when something
    survives to its right. *)
Fixpoint rstrip (s : str) : str :=
  match s with
  | [] => []
  | c :: r =>
      match rstrip r with
      | [] => if isspace c then [] else [c]
      | r' => c :: r'
      end
  end.

Definition strip (s : str) : str := rstrip (lstrip s).

(** ** Numbers *)

(** [float(z)] for an [int] [z]: the correctly rounded binary64.  (Python
    raises on an [int] beyond the range of [float]; the integers the
    program converts are frame indices, distances and sizes.) *)
Definition float_of_Z (z : Z) : float :=
  SF2Prim (binary_normalize prec emax z 0 false).

(** [int(f)]: truncation toward zero; a NaN raises [ValueError] and an
    infinity raises [OverflowError]. *)
Definition int_of_float (f : float) : result Z :=
  match Prim2SF f with
  | S754_zero _ => Ok 0
  | S754_finite s m e =>
      let mag := if 0 <=? e then Z.pos m * 2 ^ e else Z.pos m / 2 ^ (- e) in
      Ok (if s then - mag else mag)
  | S754_infinity _ => Raise OverflowError
  | S754_nan => Raise ValueError
  end.

(** [math.floor(f / 2)] as [f // 2] computes it, for a finite [f]. *)
Definition floordiv2 (f : float) : float :=
  match Prim2SF f with
  | S754_zero _ => f
  | S754_finite s m e =>
      let num := if s then Z.neg m else Z.pos m in
      float_of_Z (if 0 <=? e - 1 then num * 2 ^ (e - 1) else num / 2 ^ (1 - e))
  | S754_infinity _ | S754_nan => nan
  end.

(** A Python number: [int] or [float]. *)
Inductive num : Type :=
| PyInt (z : Z)
| PyFloat (f : float).

Definition to_float (n : num) : float :=
  match n with
  | PyInt z => float_of_Z z
  | PyFloat f => f
  end.

Definition num_add (a b : num) : num :=
  match a, b with
  | PyInt x, PyInt y => PyInt (x + y)
  | _, _ => PyFloat (to_float a + to_float b)
  end.

Definition num_sub (a b : num) : num :=
  match a, b with
  | PyInt x, PyInt y => PyInt (x - y)
  | _, _ => PyFloat (to_float a - to_float b)
  end.

Definition num_mul (a b : num) : num :=
  match a, b with
  | PyInt x, PyInt y => PyInt (x * y)
  | _, _ => PyFloat (to_float a * to_float b)
  end.

(** [a < b] and [a <= b].  The program compares a [float] with an [int]
    only for the constants 0 and 5, which convert exactly. *)
Definition num_ltb (a b : num) : bool :=
  match a, b with
  | PyInt x, PyInt y => x <? y
  | _, _ => (to_float a <? to_float b)%float
  end.

Definition num_leb (a b : num) : bool :=
  match a, b with
  | PyInt x, PyInt y => x <=? y
  | _, _ => (to_float a <=? to_float b)%float
  end.

(** [int(n)] *)
Definition py_int (n : num) : result Z :=
  match n with
  | PyInt z => Ok z
  | PyFloat f => int_of_float f
  end.

(** [max(a, b)]: the builtin keeps its first argument unless the second
    compares strictly greater. *)
Definition py_max (a b : num) : num := if num_ltb a b then b else a.

End Py.

Import Py.

(** ** The order of binary64 values *)

(** Comparisons of floats are specified by [SFcompare].  *)
Module FloatOrder.

(** A non-NaN value is ranked by a triple compared lexicographically. *)
Definition rank (f : spec_float) : option (Z * Z * Z) :=
  match f with
  | S754_nan => None
  | S754_infinity true => Some (-2, 0, 0)%Z
  | S754_infinity false => Some (2, 0, 0)%Z
  | S754_zero _ => Some (0, 0, 0)%Z
  | S754_finite true m e => Some (-1, - e, Z.neg m)%Z
  | S754_finite false m e => Some (1, e, Z.pos m)%Z
  end.

Definition lex (a b : Z * Z * Z) : comparison :=
  let '(a1, a2, a3) := a in
  let '(b1, b2, b3) := b in
  match (a1 ?= b1)%Z with
  | Eq => match (a2 ?= b2)%Z with
          | Eq => (a3 ?= b3)%Z
          | c => c
          end
  | c => c
  end.

End FloatOrder.

(* ------------------------------------------------------------------ *)
(** * [LrcParser] *)
(* ------------------------------------------------------------------ *)

Module LrcParser.

(** The part of the interpreter's Unicode database the parser consults:
    [\d] of a [str] pattern matches the code points of category Nd, and
    [int] reads them by their decimal value. *)
Class UnicodeDb : Type := {
  decimal : N -> option Z;
  decimal_range : forall c v, decimal c = Some v -> 0 <= v <= 9;
  decimal_ascii : forall c, (c < 128)%N ->
    decimal c = if ((48 <=? c) && (c <=? 57))%N then Some (Z.of_N c - 48) else None
}.

(** One entry of the track: [{'time': ..., 'text': ...}]. *)
Record LyricLine : Type := mkLine { time : float; text : str }.

(** What [os.path.exists] and [open] find at a path. *)
Inductive fs_entry : Type :=
| Absent
| Unreadable (e : exn)
| Readable (content : str).

Definition path_exists (fs : str -> fs_entry) (p : str) : bool :=
  match fs p with
  | Absent => false
  | _ => true
  end.

(** [f.readlines()] in text mode: ["\r\n"] and ["\r"] are read as ["\n"],
    and every line keeps its terminator. *)
Fixpoint translate_newlines (s : str) : str :=
  match s with
  | [] => []
  | c :: r =>
      if (c =? 13)%N then
        match r with
        | d :: r' => if (d =? 10)%N then 10%N :: translate_newlines r'
                     else 10%N :: translate_newlines r
        | [] => [10%N]
        end
      else c :: translate_newlines r
  end.

Fixpoint split_keepends (s : str) : list str :=
  match s with
  | [] => []
  | c :: r =>
      if (c =? 10)%N then [c] :: split_keepends r
      else match split_keepends r with
           | [] => [[c]]
           | l :: ls => (c :: l) :: ls
           end
  end.

Definition readlines (content : str) : list str :=
  split_keepends (translate_newlines content).

Section Parser.

Context {db : UnicodeDb}.

Definition isdigit (c : N) : bool :=
  match decimal c with
  | Some _ => true
  | None => false
  end.

(** [match.groups()] of [time_pattern]. *)
Record groups : Type := mkGroups { g_mm : str; g_ss : str; g_ms : str }.

(** [time_pattern = \[(\d{2}):(\d{2})\.(\d{2,3})\]] tried at the head of
    [s]: the groups and what follows the match.  The last group is greedy:
    three digits are tried before two. *)
Definition match_here (s : str) : option (groups * str) :=
  match s with
  | c0 :: m1 :: m2 :: c1 :: s1 :: s2 :: c2 :: f1 :: f2 :: r =>
      if ((c0 =? 91)%N && isdigit m1 && isdigit m2 && (c1 =? 58)%N
          && isdigit s1 && isdigit s2 && (c2 =? 46)%N
          && isdigit f1 && isdigit f2)%bool
      then
        let two :=
          match r with
          | c3 :: r' =>
              if (c3 =? 93)%N then Some (mkGroups [m1; m2] [s1; s2] [f1; f2], r')
              else None
          | [] => None
          end in
        match r with
        | f3 :: c3 :: r' =>
            if (isdigit f3 && (c3 =? 93)%N)%bool
            then Some (mkGroups [m1; m2] [s1; s2] [f1; f2; f3], r')
            else two
        | _ => two
        end
      else None
  | _ => None
  end.

(** [time_pattern.search(s)]: the leftmost match. *)
Fixpoint search (s : str) : option groups :=
  match match_here s with
  | Some (g, _) => Some g
  | None =>
      match s with
      | [] => None
      | _ :: r => search r
      end
  end.

(** [time_pattern.sub('', s)]: every match is removed, scanning from the
    left; [skip] counts the characters of the current match that are
    still to be dropped. *)
Fixpoint sub_from (skip : nat) (s : str) : str :=
  match s with
  | [] => []
  | c :: r =>
      match skip with
      | S k => sub_from k r
      | O =>
          match match_here s with
          | Some (g, _) => sub_from (7 + length (g_ms g)) r
          | None => c :: sub_from 0 r
          end
      end
  end.

Definition sub_empty (s : str) : str := sub_from 0 s.

(** [int(s)] on a string of decimal digits, as the groups of a match are. *)
Fixpoint int_digits (acc : Z) (s : str) : result Z :=
  match s with
  | [] => Ok acc
  | c :: r =>
      match decimal c with
      | Some v => int_digits (10 * acc + v) r
      | None => Raise ValueError
      end
  end.

Definition int_str (s : str) : result Z :=
  match s with
  | [] => Raise ValueError
  | _ => int_digits 0 s
  end.

(** [int(mm) * 60 + int(ss) + ms_val / 1000.0] *)
Definition total_seconds (mm ss ms_val : Z) : float :=
  (float_of_Z (mm * 60 + ss) + float_of_Z ms_val / 1000)%float.

(** The body of the loop over the lines: the entry the line appends. *)
Definition parse_line (line : str) : result (option LyricLine) :=
  let line := strip line in
  match search line with
  | Some g =>
      ms_val <- int_str (g_ms g) ;;
      let ms_val := if (length (g_ms g) =? 2)%nat then ms_val * 10 else ms_val in
      mm <- int_str (g_mm g) ;;
      ss <- int_str (g_ss g) ;;
      let text := strip (sub_empty line) in
      match text with
      | [] => Ok None
      | _ => Ok (Some (mkLine (total_seconds mm ss ms_val) text))
      end
  | None => Ok None
  end.

Fixpoint parse_lines (lyrics : list LyricLine) (lines : list str)
  : result (list LyricLine) :=
  match lines with
  | [] => Ok lyrics
  | line :: rest =>
      o <- parse_line line ;;
      parse_lines (match o with
                   | Some e => lyrics ++ [e]
                   | None => lyrics
                   end) rest
  end.

(** [lyrics.sort(key=lambda x: x['time'])]: the stable sort, which compares
    keys with [<] only. *)
Fixpoint insert (x : LyricLine) (l : list LyricLine) : list LyricLine :=
  match l with
  | [] => [x]
  | y :: r => if (time y <? time x)%float then y :: insert x r else x :: l
  end.

Fixpoint sort (l : list LyricLine) : list LyricLine :=
  match l with
  | [] => []
  | x :: r => insert x (sort r)
  end.

Definition parse (fs : str -> fs_entry) (file_path : str)
  : result (list LyricLine) :=
  match file_path with
  | [] => Ok []
  | _ =>
      if negb (path_exists fs file_path) then Ok []
      else
        match fs file_path with
        | Readable content =>
            lyrics <- parse_lines [] (readlines content) ;;
            Ok (sort lyrics)
        | Unreadable e => Raise e
        | Absent => Raise OSError
        end
  end.

End Parser.

(** Every value [int(mm) * 60 + int(ss)] and [ms_val / 1000.0] can take. *)
Definition seconds_table : list float :=
  map (fun n => float_of_Z (Z.of_nat n)) (seq 0 (Z.to_nat 6040)).

Definition millis_table : list float :=
  map (fun m => (float_of_Z (Z.of_nat m) / 1000)%float) (seq 0 (Z.to_nat 1000)).


(** A database with the ASCII digits only, to run the parser on. *)
#[refine] Instance ascii_db : UnicodeDb := {
  decimal c := if ((48 <=? c) && (c <=? 57))%N then Some (Z.of_N c - 48) else None
}.
Proof.
  - intros c v H.
    destruct (48 <=? c)%N eqn:E1; [|discriminate].
    destruct (c <=? 57)%N eqn:E2; [|discriminate].
    apply N.leb_le in E1, E2. injection H as <-. lia.
  - reflexivity.
Defined.

End LrcParser.

(* ------------------------------------------------------------------ *)
(** * Raster images *)
(* ------------------------------------------------------------------ *)

(** The program draws with Pillow.  An image is its size and its pixels in
    row-major order; what the library draws for a text, a resampling or a
    blur is left to the interface [Pillow], pixel by pixel. *)

Module PIL.

Definition rgb : Type := Z * Z * Z.
Definition rgba : Type := Z * Z * Z * Z.

Definition with_alpha (c : rgb) (a : Z) : rgba :=
  let '(r, g, b) := c in (r, g, b, a).

Record Image : Type := mkImage {
  im_width : Z;
  im_height : Z;
  im_data : list rgba
}.

(** [Image.new('RGBA', (w, h), c)] *)
Definition Image_new (w h : Z) (c : rgba) : result Image :=
  if ((w <? 0) || (h <? 0))%bool then Raise ValueError
  else Ok (mkImage w h (repeat c (Z.to_nat (w * h)))).

Definition pixel_at (im : Image) (x y : Z) : option rgba :=
  if ((0 <=? x) && (x <? im_width im) && (0 <=? y) && (y <? im_height im))%bool
  then nth_error (im_data im) (Z.to_nat (y * im_width im + x))
  else None.

(** The pixels of [l], the first of which has index [i], each replaced by
    [f] of its index and its value. *)
Fixpoint map_indexed (f : Z -> rgba -> rgba) (i : Z) (l : list rgba) : list rgba :=
  match l with
  | [] => []
  | px :: r => f i px :: map_indexed f (i + 1) r
  end.

(** [n] pixels, the first of which has index [i], given by [f]. *)
Fixpoint build_indexed (f : Z -> rgba) (i : Z) (n : nat) : list rgba :=
  match n with
  | O => []
  | S n' => f i :: build_indexed f (i + 1) n'
  end.

(** An in-place drawing operation changes pixels, never the size. *)
Definition pointwise (f : Z -> Z -> rgba -> rgba) (im : Image) : Image :=
  mkImage (im_width im) (im_height im)
    (map_indexed (fun i px => f (i mod im_width im) (i / im_width im) px)
       0 (im_data im)).

(** An operation that returns a new image of a given size. *)
Definition tabulate (w h : Z) (f : Z -> Z -> rgba) : Image :=
  mkImage w h (build_indexed (fun i => f (i mod w) (i / w)) 0 (Z.to_nat (w * h))).

(** The width, the height and the number of pixels held. *)
Definition size_of (im : Image) : Z * Z * nat :=
  (im_width im, im_height im, List.length (im_data im)).

(** [img.tobytes()]: four bytes per pixel. *)
Definition tobytes (im : Image) : list Z :=
  flat_map (fun px : rgba => let '(r, g, b, a) := px in [r; g; b; a])
           (im_data im).

Class Pillow : Type := {
  font : Type;
  (** [ImageFont.truetype(path, size)]; [None] when it raises. *)
  truetype : str -> Z -> option font;
  load_default : font;
  (** [draw.textlength(text, font=font)] of a text of one line *)
  textlength : font -> str -> float;
  (** [draw.textbbox((0, 0), text, font=font)] *)
  textbbox : font -> str -> Z * Z * Z * Z;
  (** the pixel at a position after
      [draw.text(xy, text, font=font, fill=fill, stroke_width=sw, stroke_fill=sf)] *)
  text_ink : num * num -> str -> font -> rgba -> Z -> option rgba ->
             Z -> Z -> rgba -> rgba;
  (** the pixel at a position of [img.resize((w, h), resample=LANCZOS)] *)
  lanczos : Image -> Z -> Z -> Z -> Z -> rgba;
  (** the pixel at a position of [img.filter(GaussianBlur(radius))] *)
  gaussian_blur : num -> Image -> Z -> Z -> rgba;
  (** a pixel of the destination after a paste of a source pixel through
      its own alpha as mask *)
  paste_px : rgba -> rgba -> rgba
}.

Section Ops.

Context {pil : Pillow}.

(** [draw.textlength(text, font=font)]: a text that holds a newline is not
    measured, the call raises [ValueError]. *)
Definition text_length (text : str) (f : font) : result float :=
  if existsb (N.eqb 10) text then Raise ValueError else Ok (textlength f text).

Definition draw_text (im : Image) (xy : num * num) (text : str) (f : font)
  (fill : rgba) (stroke_width : Z) (stroke_fill : option rgba) : Image :=
  pointwise (text_ink xy text f fill stroke_width stroke_fill) im.

Definition resize (im : Image) (w h : Z) : Image :=
  tabulate w h (lanczos im w h).

Definition blur (radius : num) (im : Image) : Image :=
  tabulate (im_width im) (im_height im) (gaussian_blur radius im).

(** [dest.paste(src, (dx, dy), src)]: the part of [src] that falls inside
    [dest] is composited, the rest of [dest] is left as it is. *)
Definition paste (dest src : Image) (dx dy : Z) : Image :=
  pointwise (fun x y old =>
               match pixel_at src (x - dx) (y - dy) with
               | Some s => paste_px old s
               | None => old
               end) dest.

End Ops.

End PIL.

(* ------------------------------------------------------------------ *)
(** * [FrameRenderer] *)
(* ------------------------------------------------------------------ *)

Module FrameRenderer.

Import LrcParser PIL.

Inductive alignment : Type := AlignLeft | AlignCenter | AlignRight.

Record shadow_params : Type := mkShadow {
  sh_enabled : bool; sh_color : rgb; sh_x : Z; sh_y : Z
}.

Record stroke_params : Type := mkStroke {
  st_enabled : bool; st_color : rgb; st_width : Z
}.

(** The dictionary [params], with the types the widgets of the window give
    its values: spin boxes are [int], double spin boxes are [float].  The
    duration is a number of seconds: the window gives an [int], and [run]
    takes the [int] of the product with the frame rate. *)
Record params : Type := mkParams {
  width : Z;
  height : Z;
  duration : num;
  bitrate : str;
  visible_lines : Z;
  line_spacing : Z;
  align : alignment;
  font_path : str;
  font_size : Z;
  font_color : rgb;
  scale_decay : float;
  fade_decay : float;
  blur_base : num;
  blur_inc : float;
  meta_title : str;
  meta_artist : str;
  meta_album : str;
  shadow : shadow_params;
  stroke : stroke_params
}.

(** [get_current_line_index]: the loop keeps the index of the last entry
    it accepted and stops at the first entry later than [current_time]. *)
Fixpoint scan_lines (idx i : Z) (lyrics : list LyricLine) (current_time : float) : Z :=
  match lyrics with
  | [] => idx
  | line :: rest =>
      if (time line <=? current_time)%float
      then scan_lines i (i + 1) rest current_time
      else idx
  end.

Definition get_current_line_index (lyrics : list LyricLine) (current_time : float) : Z :=
  scan_lines (-1) 0 lyrics current_time.

(** [max(a, b)] on two floats. *)
Definition fmax (a b : float) : float := if (a <? b)%float then b else a.

(** The entries [(index, distance_level)] appended for [i], [i + 1], ... *)
Fixpoint neighbours (curr_idx len i : Z) (n : nat) : list (Z * Z) :=
  match n with
  | O => []
  | S n' =>
      (if curr_idx - i >=? 0 then [(curr_idx - i, - i)] else [])
      ++ (if curr_idx + i <? len then [(curr_idx + i, i)] else [])
      ++ neighbours curr_idx len (i + 1) n'
  end.

(** [render_list]: the centre line, then [range(1, visible_lines // 2 + 2)]. *)
Definition render_list (curr_idx len visible_lines : Z) : list (Z * Z) :=
  (curr_idx, 0) :: neighbours curr_idx len 1 (Z.to_nat (visible_lines / 2 + 2 - 1)).

(** What the loop over [render_list] computes for one line before it
    draws it. *)
Record line_job : Type := mkJob {
  j_idx : Z;
  j_dist : Z;
  j_text : str;
  j_scale : float;
  j_alpha : num;
  j_blur : num;
  j_y : Z
}.

Definition header_x (p : params) : Z :=
  match align p with
  | AlignCenter => width p / 2
  | AlignLeft => 50
  | AlignRight => width p - 50
  end.

Definition margin_top : Z := 40.

Definition scroll_area_top (p : params) : Z := margin_top + font_size p * 4.

Definition scroll_area_height (p : params) : Z := height p - scroll_area_top p - 50.

Definition center_y (p : params) : Z := scroll_area_top p + scroll_area_height p / 2.

(** The parameters of the line at [(idx, dist_level)]; [None] is the
    [continue] of an index outside the track. *)
Definition layout (p : params) (lyrics : list LyricLine) (entry : Z * Z)
  : option line_job :=
  let (idx, dist_level) := entry in
  if ((idx <? 0) || (idx >=? Z.of_nat (List.length lyrics)))%bool then None
  else
    match nth_error lyrics (Z.to_nat idx) with
    | None => None
    | Some line =>
        let abs_dist := Z.abs dist_level in
        let scale := fmax 0.1 (1 - scale_decay p * float_of_Z abs_dist)%float in
        let alpha :=
          py_max (PyInt 0)
            (num_sub (PyInt 255)
               (num_mul (num_mul (PyFloat (fade_decay p)) (PyInt abs_dist)) (PyInt 50))) in
        let alpha := if dist_level =? 0 then PyInt 255 else alpha in
        let blur :=
          num_add (blur_base p) (num_mul (PyFloat (blur_inc p)) (PyInt abs_dist)) in
        let blur := if dist_level =? 0 then PyInt 0 else blur in
        let y_pos := center_y p + dist_level * (font_size p + line_spacing p) in
        Some (mkJob idx dist_level (text line) scale alpha blur y_pos)
    end.

Fixpoint filter_some {A B} (f : A -> option B) (l : list A) : list B :=
  match l with
  | [] => []
  | a :: r =>
      match f a with
      | Some b => b :: filter_some f r
      | None => filter_some f r
      end
  end.

(** The lines [render] draws at [current_time], in the order it draws them. *)
Definition frame_jobs (p : params) (lyrics : list LyricLine) (current_time : float)
  : list line_job :=
  filter_some (layout p lyrics)
    (render_list (get_current_line_index lyrics current_time)
                 (Z.of_nat (List.length lyrics)) (visible_lines p)).

Section Drawing.

Context {pil : Pillow}.

(** The three results of [draw_text_with_effects]: the tuple
    [(None, 0, 0)], a bare [None], and a layer with its position. *)
Inductive drawn : Type :=
| NoLayer
| BareNone
| Layer (img : Image) (dest_x dest_y : Z).

Definition draw_text_with_effects (text : str) (x y : Z) (f : font) (color : rgb)
  (alpha : num) (scale : float) (blur_radius : num) (al : alignment)
  (sh : shadow_params) (st : stroke_params) : result drawn :=
  if num_leb alpha (PyInt 5) then Ok NoLayer
  else
    ialpha <- py_int alpha ;;
    let fill_color := with_alpha color ialpha in
    let '(b0, b1, b2, b3) := textbbox f text in
    let w := b2 - b0 in
    let h := b3 - b1 in
    let padding := 20 in
    let temp_w := w + padding * 2 in
    let temp_h := h + padding * 2 in
    if ((temp_w <=? 0) || (temp_h <=? 0))%bool then Ok BareNone
    else
      txt_img <- Image_new temp_w temp_h (0, 0, 0, 0) ;;
      let lx := padding in
      let ly := padding in
      txt_img <-
        (if sh_enabled sh then
           s_alpha <- py_int (num_mul alpha (PyFloat 0.6)) ;;
           Ok (draw_text txt_img (PyInt (lx + sh_x sh), PyInt (ly + sh_y sh)) text f
                 (with_alpha (sh_color sh) s_alpha) 0 None)
         else Ok txt_img) ;;
      let stroke_width := if st_enabled st then st_width st else 0 in
      let stroke_fill :=
        if st_enabled st then Some (with_alpha (st_color st) ialpha) else None in
      let txt_img :=
        draw_text txt_img (PyInt lx, PyInt ly) text f fill_color stroke_width stroke_fill in
      txt_img <-
        (if negb (scale =? 1)%float then
           new_w <- py_int (num_mul (PyInt temp_w) (PyFloat scale)) ;;
           new_h <- py_int (num_mul (PyInt temp_h) (PyFloat scale)) ;;
           if ((new_w >? 0) && (new_h >? 0))%bool then Ok (resize txt_img new_w new_h)
           else Ok txt_img
         else Ok txt_img) ;;
      let txt_img :=
        if num_ltb (PyInt 0) blur_radius then blur blur_radius txt_img else txt_img in
      let final_w := im_width txt_img in
      let final_h := im_height txt_img in
      let dest_x :=
        match al with
        | AlignCenter => x - final_w / 2
        | AlignRight => x - final_w
        | AlignLeft => x
        end in
      let dest_y := y - final_h / 2 in
      Ok (Layer txt_img dest_x dest_y).

(** The renderer object: the parameters, the track and the three fonts
    [__init__] loads, all three replaced by the default font when one
    fails to load. *)
Record renderer : Type := mkRenderer {
  p : params;
  lyrics : list LyricLine;
  lyric_font : font;
  meta_title_font : font;
  meta_info_font : font
}.

Definition init (prm : params) (lrc : list LyricLine) : renderer :=
  let loaded :=
    match truetype (font_path prm) (font_size prm) with
    | None => None
    | Some f1 =>
        match int_of_float (float_of_Z (font_size prm) * 1.5)%float with
        | Raise _ => None
        | Ok s2 =>
            match truetype (font_path prm) s2 with
            | None => None
            | Some f2 =>
                match int_of_float (float_of_Z (font_size prm) * 0.8)%float with
                | Raise _ => None
                | Ok s3 =>
                    match truetype (font_path prm) s3 with
                    | None => None
                    | Some f3 => Some (f1, f2, f3)
                    end
                end
            end
        end
    end in
  match loaded with
  | Some (f1, f2, f3) => mkRenderer prm lrc f1 f2 f3
  | None => mkRenderer prm lrc load_default load_default load_default
  end.

(** Where the text of the header starts: [header_x - w // 2], [header_x]
    or [header_x - w] for a text of length [w]. *)
Definition header_anchor (prm : params) (w : float) : num :=
  match align prm with
  | AlignCenter => num_sub (PyInt (header_x prm)) (PyFloat (floordiv2 w))
  | AlignLeft => PyInt (header_x prm)
  | AlignRight => num_sub (PyInt (header_x prm)) (PyFloat w)
  end.

(** [f"{artist} - {album}"] *)
Definition info_text (prm : params) : str :=
  (meta_artist prm ++ lit " - " ++ meta_album prm)%list.

(** The title and the [artist - album] line at the top of the frame, each
    measured before it is drawn. *)
Definition draw_header (R : renderer) (img : Image) : result Image :=
  let prm := p R in
  title_w <- text_length (meta_title prm) (meta_title_font R) ;;
  let img :=
    draw_text img (header_anchor prm title_w, PyInt margin_top) (meta_title prm)
      (meta_title_font R) (with_alpha (font_color prm) 255) 0 None in
  info_w <- text_length (info_text prm) (meta_info_font R) ;;
  Ok (draw_text img (header_anchor prm info_w, PyInt (margin_top + font_size prm * 2))
        (info_text prm) (meta_info_font R) (with_alpha (font_color prm) 200) 0 None).

(** One turn of the drawing loop: the layer of the line, pasted when there
    is one.  Unpacking a bare [None] raises [TypeError]. *)
Definition composite (R : renderer) (img : Image) (j : line_job) : result Image :=
  d <- draw_text_with_effects (j_text j) (header_x (p R)) (j_y j) (lyric_font R)
         (font_color (p R)) (j_alpha j) (j_scale j) (j_blur j)
         (align (p R)) (shadow (p R)) (stroke (p R)) ;;
  match d with
  | NoLayer => Ok img
  | BareNone => Raise TypeError
  | Layer res_img dx dy => Ok (paste img res_img dx dy)
  end.

Fixpoint composite_all (R : renderer) (img : Image) (jobs : list line_job)
  : result Image :=
  match jobs with
  | [] => Ok img
  | j :: rest =>
      img' <- composite R img j ;;
      composite_all R img' rest
  end.

Definition render (R : renderer) (current_time : float) : result Image :=
  img <- Image_new (width (p R)) (height (p R)) (0, 0, 0, 0) ;;
  img <- draw_header R img ;;
  composite_all R img (frame_jobs (p R) (lyrics R) current_time).

End Drawing.

End FrameRenderer.

(* ------------------------------------------------------------------ *)
(** * [ExportThread] *)
(* ------------------------------------------------------------------ *)

Module ExportThread.

Import LrcParser PIL FrameRenderer.

(** What the thread does to the outside, in the order it does it. *)
Inductive failure : Type :=
| Exc (e : exn)          (** [str(e)] of a caught exception *)
| FfmpegFailed.          (** the message for a non-zero return code *)

Inductive event : Type :=
| Popen (w h fps : Z) (rate out : str)   (** the encoder is started *)
| Write (bytes : list Z)                 (** [process.stdin.write] *)
| CloseStdin                             (** [process.stdin.close] *)
| Wait                                   (** [process.wait] *)
| Progress (percent : Z)                 (** [progress_signal] *)
| Finished                               (** [finished_signal] *)
| Error (f : failure).                   (** [error_signal] *)

(** The surroundings of one run: [stop_called i] tells whether the window
    calls [stop] between the end of frame [i - 1] and the test of
    [is_running] that opens frame [i]; [returncode] is the exit status of
    the encoder.  The encoder is taken to start and its pipe to accept
    what is written: the exceptions of a run are those of the renderer and
    of the progress report. *)
Record env : Type := mkEnv {
  stop_called : nat -> bool;
  returncode : Z
}.

Definition fps : Z := 30.

(** [total_frames = int(duration * fps)] *)
Definition total_frames (prm : params) : result Z :=
  py_int (num_mul (duration prm) (PyInt fps)).

(** [stop]: the flag is cleared and never set again. *)
Definition stop (is_running : bool) : bool := false.

Definition is_notification (e : event) : bool :=
  match e with
  | Finished | Error _ => true
  | _ => false
  end.

(** The frames written, in order. *)
Fixpoint writes (tr : list event) : list (list Z) :=
  match tr with
  | [] => []
  | Write b :: r => b :: writes r
  | _ :: r => writes r
  end.

Section Run.

Context {pil : Pillow}.

(** [t = i / fps] *)
Definition frame_time (i : nat) : float :=
  (float_of_Z (Z.of_nat i) / float_of_Z fps)%float.

(** The progress report that follows the write of frame [i]: every tenth
    frame emits [int((i / total_frames) * 100)]. *)
Definition progress (total : Z) (i : nat) : result (list event) :=
  if Z.of_nat i mod 10 =? 0 then
    percent <- py_int (PyFloat
                 (float_of_Z (Z.of_nat i) / float_of_Z total * 100)%float) ;;
    Ok [Progress percent]
  else Ok [].

(** [for i in range(total_frames)] with [n] frames to go, then the end of
    [run]; an exception leaves through the [except] clause. *)
Fixpoint frames (R : renderer) (E : env) (total : Z) (n i : nat) (is_running : bool)
  : list event :=
  match n with
  | O =>
      [CloseStdin; Wait;
       if negb (returncode E =? 0) then Error FfmpegFailed else Finished]
  | S n' =>
      let is_running := if stop_called E i then stop is_running else is_running in
      if negb is_running then [CloseStdin; Wait]
      else
        match render R (frame_time i) with
        | Raise e => [Error (Exc e)]
        | Ok img =>
            Write (tobytes img) ::
            match progress total i with
            | Raise e => [Error (Exc e)]
            | Ok evs => evs ++ frames R E total n' (S i) is_running
            end
        end
  end.

(** Frame [i] is rendered and reported without an exception. *)
Definition frame_ok (R : renderer) (total : Z) (i : nat) : bool :=
  match render R (frame_time i), progress total i with
  | Ok _, Ok _ => true
  | _, _ => false
  end.

(** [run]: the number of frames is computed first, inside the [try], then
    the encoder is started and the frames are streamed. *)
Definition run (prm : params) (lrc : list LyricLine) (output_path : str) (E : env)
  : list event :=
  match total_frames prm with
  | Raise e => [Error (Exc e)]
  | Ok total =>
      Popen (width prm) (height prm) fps (bitrate prm) output_path
      :: frames (init prm lrc) E total (Z.to_nat total) 0 true
  end.

End Run.

End ExportThread.

(* ------------------------------------------------------------------ *)
(** * The properties the design document states *)
(* ------------------------------------------------------------------ *)

(** The formulas and predicates of the design document, written as the
    document words them, to be compared with what the code computes. *)

Module Spec.

Import LrcParser FrameRenderer.

(** A lyric line: a non-empty text and a timestamp that is at least zero. *)
Definition valid_entry (e : LyricLine) : Prop :=
  text e <> [] /\ (0 <=? time e)%float = true.

(** The track is in ascending order of timestamps. *)
Definition ascending (l : list LyricLine) : Prop :=
  StronglySorted (fun a b => (time a <=? time b)%float = true) l.

(** The entries of [l] whose timestamp equals [t], in their order. *)
Definition with_time (t : float) (l : list LyricLine) : list LyricLine :=
  filter (fun e => (time e =? t)%float) l.

(** The line [[MM:SS.ff]text] or [[MM:SS.fff]text]. *)
Definition tagged_line (m1 m2 s1 s2 : N) (frac txt : str) : str :=
  ([91; m1; m2; 58; s1; s2; 46]%N ++ frac ++ 93%N :: txt)%list.

(** [mm*60 + ss + ms/1000] *)
Definition timestamp (mm ss ms : Z) : float :=
  (float_of_Z (mm * 60 + ss) + float_of_Z ms / 1000)%float.

(** [scale = max(0.1, 1 - scale_decay * d)] *)
Definition scale_at (prm : params) (d : Z) : float :=
  fmax 0.1 (1 - scale_decay prm * float_of_Z d)%float.

(** [alpha = max(0, 255 - fade_decay * d * 50)], forced to 255 when [d = 0] *)
Definition alpha_at (prm : params) (d : Z) : num :=
  if d =? 0 then PyInt 255
  else py_max (PyInt 0)
         (PyFloat (255 - fade_decay prm * float_of_Z d * 50)%float).

(** [blur radius = blur_base + blur_increment * d], forced to 0 when [d = 0] *)
Definition blur_at (prm : params) (d : Z) : num :=
  if d =? 0 then PyInt 0
  else num_add (blur_base prm) (PyFloat (blur_inc prm * float_of_Z d)%float).

(** [round(x)]: the nearest integer, a tie going to the even one. *)
Definition round (x : num) : result Z :=
  match x with
  | PyInt z => Ok z
  | PyFloat f =>
      match Prim2SF f with
      | S754_zero _ => Ok 0
      | S754_finite s m e =>
          let mag :=
            if 0 <=? e then Z.pos m * 2 ^ e
            else
              let d := 2 ^ (- e) in
              let q := Z.pos m / d in
              let r := Z.pos m mod d in
              if 2 * r <? d then q
              else if d <? 2 * r then q + 1
              else if Z.even q then q else q + 1 in
          Ok (if s then - mag else mag)
      | S754_infinity _ => Raise OverflowError
      | S754_nan => Raise ValueError
      end
  end.

(** [round(duration_seconds * frame_rate)] *)
Definition rounded_frames (prm : params) : result Z :=
  round (num_mul (duration prm) (PyInt ExportThread.fps)).

(** [i] is the greatest index of [l] whose timestamp is at most [t], and
    [-1] when there is none. *)
Definition greatest_index_upto (l : list LyricLine) (t : float) (i : Z) : Prop :=
  (i = -1 \/
   exists line, nth_error l (Z.to_nat i) = Some line /\ 0 <= i /\
                (time line <=? t)%float = true) /\
  forall (j : nat) line,
    nth_error l j = Some line -> (time line <=? t)%float = true -> Z.of_nat j <= i.

End Spec.

(* ------------------------------------------------------------------ *)
(** * Sample inputs *)
(* ------------------------------------------------------------------ *)

Module Samples.

Import LrcParser PIL FrameRenderer ExportThread.

Definition newline : str := [10%N].

Definition song_path : str := lit "song.lrc".

(** A file out of order, with a tie, an empty tagged line and a line
    without a tag. *)
Definition song_text : str :=
  (lit "[00:05.00]c" ++ newline ++ lit "[00:02.00]b" ++ newline
   ++ lit "[00:00.00]a" ++ newline ++ lit "[00:02.000]b again" ++ newline
   ++ lit "[00:07.00]  " ++ newline ++ lit "no tag")%list.

Definition disk (path : str) : fs_entry :=
  if list_eq_dec N.eq_dec path song_path then Readable song_text else Absent.

(** The track [[(0,"a"), (2,"b"), (5,"c")]]. *)
Definition track3 : list LyricLine :=
  [mkLine 0 (lit "a"); mkLine 2 (lit "b"); mkLine 5 (lit "c")].

(** The parameters the window starts with. *)
Definition default_params : params := {|
  width := 1920; height := 1080; duration := PyInt 60; bitrate := lit "50M";
  visible_lines := 10; line_spacing := 80; align := AlignCenter;
  font_path := lit "arial.ttf"; font_size := 60; font_color := (255, 255, 255);
  scale_decay := 0.1; fade_decay := 0.5; blur_base := PyInt 0; blur_inc := 2;
  meta_title := lit "Song Title"; meta_artist := lit "Artist";
  meta_album := lit "Album";
  shadow := mkShadow false (0, 0, 0) 2 2;
  stroke := mkStroke false (0, 0, 0) 2
|}.

(** A small canvas and a short export, to run the renderer on. *)
Definition small_params : params := {|
  width := 4; height := 100; duration := PyInt 1; bitrate := lit "20M";
  visible_lines := 2; line_spacing := 1; align := AlignCenter;
  font_path := lit "box.ttf"; font_size := 1; font_color := (255, 255, 255);
  scale_decay := 0.1; fade_decay := 5; blur_base := PyInt 0; blur_inc := 2;
  meta_title := lit "T"; meta_artist := lit "A"; meta_album := lit "B";
  shadow := mkShadow true (0, 0, 0) 1 1;
  stroke := mkStroke false (0, 0, 0) 2
|}.

(** A stand-in for the drawing library: a font whose glyphs are solid
    boxes as wide and high as its size, nearest-neighbour resampling, a
    blur that leaves the image as it is, and a paste that copies the
    pixels that are not transparent. *)
Definition box_origin (n : num) : option Z :=
  match py_int n with
  | Ok z => Some z
  | Raise _ => None
  end.

Definition box_ink (xy : num * num) (text : str) (size : Z) (fill : rgba)
  (stroke_width : Z) (stroke_fill : option rgba) : Z -> Z -> rgba -> rgba :=
  match box_origin (fst xy), box_origin (snd xy) with
  | Some x0, Some y0 =>
      let x1 := x0 + size * Z.of_nat (List.length text) in
      let y1 := y0 + size in
      fun x y old =>
        if ((x0 <=? x) && (x <? x1) && (y0 <=? y) && (y <? y1))%bool
        then fill else old
  | _, _ => fun _ _ old => old
  end.

Definition box_pixel (im : Image) (x y : Z) : rgba :=
  match pixel_at im x y with
  | Some px => px
  | None => (0, 0, 0, 0)
  end.

Instance box_pillow : Pillow := {|
  font := Z;
  truetype := fun _ size => if size <=? 0 then None else Some size;
  load_default := 1;
  textlength := fun size text => float_of_Z (size * Z.of_nat (List.length text));
  textbbox := fun size text => (0, 0, size * Z.of_nat (List.length text), size);
  text_ink := box_ink;
  lanczos := fun im w h x y =>
               box_pixel im (x * im_width im / w) (y * im_height im / h);
  gaussian_blur := fun _ im x y => box_pixel im x y;
  paste_px := fun old s => let '(_, _, _, a) := s in if a =? 0 then old else s
|}.

(** The same export with a duration that is not a whole number of
    seconds. *)
Definition fractional_params : params := {|
  width := 4; height := 100; duration := PyFloat 1.99; bitrate := lit "20M";
  visible_lines := 2; line_spacing := 1; align := AlignCenter;
  font_path := lit "box.ttf"; font_size := 1; font_color := (255, 255, 255);
  scale_decay := 0.1; fade_decay := 5; blur_base := PyInt 0; blur_inc := 2;
  meta_title := lit "T"; meta_artist := lit "A"; meta_album := lit "B";
  shadow := mkShadow true (0, 0, 0) 1 1;
  stroke := mkStroke false (0, 0, 0) 2
|}.

(** A line at distance one that the fade of [small_params] makes faint. *)
Definition faint_job : line_job :=
  mkJob 2 1 (lit "c") 0.9 (PyFloat 5) (PyFloat 2) 49.

(** The encoder ends well and [stop] is never called. *)
Definition quiet : env := mkEnv (fun _ => false) 0.

(** [stop] is called while frame 2 is rendered. *)
Definition stopped_at_3 : env := mkEnv (fun i => Nat.eqb i 3) 0.

End Samples.

(* ------------------------------------------------------------------ *)
(** * [get_ffmpeg_path] *)
(* ------------------------------------------------------------------ *)

Module Launcher.

(** What the function asks of the interpreter and of the file system:
    whether the program runs from a bundle ([sys.frozen]), the directory of
    the bundle ([sys._MEIPASS]), the directory of the script,
    [os.path.join] and [os.path.exists]. *)
Record host : Type := mkHost {
  frozen : bool;
  meipass : str;
  script_dir : str;
  path_join : str -> str -> str;
  path_exists : str -> bool
}.

(** [get_ffmpeg_path]: the lines it prints and the path it returns. *)
Definition get_ffmpeg_path (H : host) : list str * str :=
  let base_path := if frozen H then meipass H else script_dir H in
  let printed := if frozen H then [lit "frozened"] else [base_path] in
  let ffmpeg_exe := path_join H base_path (lit "ffmpeg.exe") in
  let printed := (printed ++ [ffmpeg_exe])%list in
  if negb (path_exists H ffmpeg_exe) then
    if path_exists H (lit "ffmpeg.exe") then (printed, lit "ffmpeg.exe")
    else (printed, lit "ffmpeg")
  else ((printed ++ [ffmpeg_exe])%list, ffmpeg_exe).

End Launcher.

(* ------------------------------------------------------------------ *)
(** * [MainWindow]: the preview and the loading of a track *)
(* ------------------------------------------------------------------ *)

Module MainWindow.

Import LrcParser PIL FrameRenderer.

Definition preview_scale : float := 0.5.

(** [int(x * preview_scale)] *)
Definition scaled (x : Z) : result Z :=
  py_int (num_mul (PyInt x) (PyFloat preview_scale)).

(** The parameters of the window with the canvas, the font and the line
    spacing at the scale of the preview. *)
Definition preview_params (prm : params) : result params :=
  w <- scaled (width prm) ;;
  h <- scaled (height prm) ;;
  fs <- scaled (font_size prm) ;;
  ls <- scaled (line_spacing prm) ;;
  Ok {| width := w; height := h; duration := duration prm; bitrate := bitrate prm;
        visible_lines := visible_lines prm; line_spacing := ls; align := align prm;
        font_path := font_path prm; font_size := fs; font_color := font_color prm;
        scale_decay := scale_decay prm; fade_decay := fade_decay prm;
        blur_base := blur_base prm; blur_inc := blur_inc prm;
        meta_title := meta_title prm; meta_artist := meta_artist prm;
        meta_album := meta_album prm; shadow := shadow prm; stroke := stroke prm |}.

Section Preview.

Context {pil : Pillow}.

(** [update_preview]: nothing is rendered without lyrics ([None]);
    otherwise the frame at [slider_time.value() / 100.0] is rendered with
    the parameters of the preview. *)
Definition update_preview (prm : params) (lyrics : list LyricLine) (slider_value : Z)
  : option (result Image) :=
  match lyrics with
  | [] => None
  | _ =>
      let current_time := (float_of_Z slider_value / 100)%float in
      Some (current_params <- preview_params prm ;;
            render (init current_params lyrics) current_time)
  end.

End Preview.

(** ** [load_lrc] *)

(** What [load_lrc] does to the widgets, in the order it does it. *)
Inductive ui_call : Type :=
| SetLrcLabel (path : str)      (** [btn_lrc.setText], of the base name of [path] *)
| SetDuration (value : Z)       (** [spin_dur.setValue] *)
| SetSliderRange (lo hi : Z)    (** [slider_time.setRange] *)
| SchedulePreview.              (** [schedule_preview] *)

(** [load_lrc], from the path the file dialog returns and the lyrics the
    window holds: the lyrics it holds afterwards and the calls it made.
    An empty path (the dialog was closed) changes nothing; a track that is
    not empty sets the duration to [int(lyrics[-1]['time']) + 5] and the
    slider to the hundredths of a second up to that duration. *)
Definition load_lrc {db : UnicodeDb} (fs : str -> fs_entry) (path : str)
  (lyrics : list LyricLine) : result (list LyricLine * list ui_call) :=
  match path with
  | [] => Ok (lyrics, [])
  | _ =>
      parsed <- parse fs path ;;
      match parsed with
      | [] => Ok (parsed, [SetLrcLabel path; SchedulePreview])
      | first :: rest =>
          seconds <- int_of_float (time (last rest first)) ;;
          let duration := seconds + 5 in
          Ok (parsed, [SetLrcLabel path; SetDuration duration;
                       SetSliderRange 0 (duration * 100); SchedulePreview])
      end
  end.

End MainWindow.

(* ------------------------------------------------------------------ *)
(** * Notions used to state further properties *)
(* ------------------------------------------------------------------ *)

Module Notions.

Import LrcParser PIL FrameRenderer ExportThread.

(** The number of leading entries of the track that are at or before [t]. *)
Fixpoint accepted (t : float) (l : list LyricLine) : nat :=
  match l with
  | [] => O
  | line :: rest => if (time line <=? t)%float then S (accepted t rest) else O
  end.

(** A float that is neither a NaN nor an infinity. *)
Definition finite (f : float) : bool :=
  match Prim2SF f with
  | S754_zero _ | S754_finite _ _ _ => true
  | S754_infinity _ | S754_nan => false
  end.

(** An image holds as many pixels as its size says. *)
Definition well_sized (im : Image) : Prop :=
  List.length (im_data im) = Z.to_nat (im_width im * im_height im).

(** A layer that is not empty and holds the pixels of its size. *)
Definition solid (im : Image) : Prop :=
  0 < im_width im /\ 0 < im_height im /\ well_sized im.

(** A line of a file ends at its first newline. *)
Definition one_line (line : str) : Prop :=
  line <> [] /\ ~ In 10%N (removelast line).

(** A text starts and ends with a character that is not a space. *)
Definition trimmed (s : str) : Prop :=
  exists c r, s = c :: r /\ isspace c = false /\ isspace (last s c) = false.

(** The end and the error notifications of a trace. *)
Definition notifications (tr : list event) : list event :=
  filter is_notification tr.

Definition is_pipe_end (e : event) : bool :=
  match e with
  | CloseStdin | Wait => true
  | _ => false
  end.

(** The events of the loop: a frame written, a progress reported. *)
Definition is_stream (e : event) : bool :=
  match e with
  | Write _ | Progress _ => true
  | _ => false
  end.

(** The frame indices that are multiples of ten. *)
Definition reported (i : nat) : bool := Z.of_nat i mod 10 =? 0.

(** An export whose canvas cannot be created. *)
Definition broken_params : params := {|
  width := -1; height := 100; duration := PyInt 1; bitrate := lit "20M";
  visible_lines := 2; line_spacing := 1; align := AlignCenter;
  font_path := lit "box.ttf"; font_size := 1; font_color := (255, 255, 255);
  scale_decay := 0.1; fade_decay := 5; blur_base := PyInt 0; blur_inc := 2;
  meta_title := lit "T"; meta_artist := lit "A"; meta_album := lit "B";
  shadow := mkShadow true (0, 0, 0) 1 1;
  stroke := mkStroke false (0, 0, 0) 2
|}.

(** The parameters of an export with another duration. *)
Definition with_duration (prm : params) (d : num) : params := {|
  width := width prm; height := height prm; duration := d; bitrate := bitrate prm;
  visible_lines := visible_lines prm; line_spacing := line_spacing prm;
  align := align prm; font_path := font_path prm; font_size := font_size prm;
  font_color := font_color prm; scale_decay := scale_decay prm;
  fade_decay := fade_decay prm; blur_base := blur_base prm; blur_inc := blur_inc prm;
  meta_title := meta_title prm; meta_artist := meta_artist prm;
  meta_album := meta_album prm; shadow := shadow prm; stroke := stroke prm
|}.

Definition is_progress (e : event) : bool :=
  match e with
  | Progress _ => true
  | _ => false
  end.

(** [int(n * 0.5)] is [n // 2], read off the significand and the exponent
    of the product. *)
Definition half_ok (n : Z) : bool :=
  match Prim2SF (PrimFloat.of_uint63 (Uint63.of_Z n) * MainWindow.preview_scale)%float with
  | S754_zero _ => n / 2 =? 0
  | S754_finite false m e => (e <? 0) && (Z.shiftr (Z.pos m) (- e) =? n / 2)
  | _ => false
  end.

(** [half_ok] on the [k] numbers from [n] on. *)
Fixpoint halving_checked (k : nat) (n : Z) : bool :=
  match k with
  | O => true
  | S k' => half_ok n && halving_checked k' (n + 1)
  end.

(** A host with a bundled encoder and one without any. *)
Definition bundled_host : Launcher.host :=
  Launcher.mkHost true (lit "/bundle") (lit "/src")
    (fun a b => (a ++ lit "/" ++ b)%list)
    (fun p => if list_eq_dec N.eq_dec p (lit "/bundle/ffmpeg.exe") then true else false).

Definition bare_host : Launcher.host :=
  Launcher.mkHost false (lit "/bundle") (lit "/src")
    (fun a b => (a ++ lit "/" ++ b)%list) (fun _ => false).

End Notions.

(* ------------------------------------------------------------------ *)
(** * Facts about the order of binary64 values *)
(* ------------------------------------------------------------------ *)

(** The facts about [<], [<=] and [==] the program relies on. *)

Module FloatOrderFacts.

Import FloatOrder.
Local Open Scope float_scope.

Lemma SFcompare_rank (x y : spec_float) :
  SFcompare x y =
  match rank x, rank y with
  | Some a, Some b => Some (lex a b)
  | _, _ => None
  end.
Proof.
  destruct x as [[]|[]| |[] mx ex], y as [[]|[]| |[] my ey]; cbn; try reflexivity.
  - rewrite Z.compare_opp, (Z.compare_antisym ex ey), Pos.compare_cont_spec.
    destruct (ex ?= ey)%Z; cbn; try reflexivity.
    now destruct (mx ?= my)%positive.
Qed.

Lemma lex_le_iff a1 a2 a3 b1 b2 b3 :
  lex (a1, a2, a3) (b1, b2, b3) <> Gt <->
  (a1 < b1 \/ (a1 = b1 /\ (a2 < b2 \/ (a2 = b2 /\ a3 <= b3))))%Z.
Proof.
  unfold lex.
  destruct (Z.compare_spec a1 b1), (Z.compare_spec a2 b2), (Z.compare_spec a3 b3);
    split; intros HH; try congruence; try lia; exfalso; apply HH; reflexivity.
Qed.

Lemma lex_lt_iff a1 a2 a3 b1 b2 b3 :
  lex (a1, a2, a3) (b1, b2, b3) = Lt <->
  (a1 < b1 \/ (a1 = b1 /\ (a2 < b2 \/ (a2 = b2 /\ a3 < b3))))%Z.
Proof.
  unfold lex.
  destruct (Z.compare_spec a1 b1), (Z.compare_spec a2 b2), (Z.compare_spec a3 b3);
    split; intros HH; try congruence; try lia.
Qed.

Lemma lex_eq_iff a1 a2 a3 b1 b2 b3 :
  lex (a1, a2, a3) (b1, b2, b3) = Eq <-> (a1 = b1 /\ a2 = b2 /\ a3 = b3)%Z.
Proof.
  unfold lex.
  destruct (Z.compare_spec a1 b1), (Z.compare_spec a2 b2), (Z.compare_spec a3 b3);
    split; intros HH; try congruence; try lia.
Qed.

Lemma lex_le_trans a b c :
  lex a b <> Gt -> lex b c <> Gt -> lex a c <> Gt.
Proof.
  destruct a as [[a1 a2] a3], b as [[b1 b2] b3], c as [[c1 c2] c3].
  rewrite !lex_le_iff. lia.
Qed.

Lemma lex_antisym a b : lex b a = CompOpp (lex a b).
Proof.
  destruct a as [[a1 a2] a3], b as [[b1 b2] b3]. unfold lex.
  rewrite (Z.compare_antisym a1 b1), (Z.compare_antisym a2 b2),
    (Z.compare_antisym a3 b3).
  destruct (a1 ?= b1)%Z, (a2 ?= b2)%Z, (a3 ?= b3)%Z; reflexivity.
Qed.

(** [<=] is transitive (a NaN is below and above nothing). *)
Lemma leb_trans (x y z : float) :
  (x <=? y) = true -> (y <=? z) = true -> (x <=? z) = true.
Proof.
  rewrite !leb_spec. unfold SFleb. rewrite !SFcompare_rank.
  destruct (rank (Prim2SF x)) as [a|], (rank (Prim2SF y)) as [b|],
    (rank (Prim2SF z)) as [c|]; try discriminate.
  intros H1 H2. pose proof (lex_le_trans a b c) as T.
  destruct (lex a b), (lex b c), (lex a c); try discriminate; try reflexivity;
    exfalso; apply T; congruence.
Qed.

(** A value that is above zero is comparable with itself: it is no NaN. *)
Lemma leb_rank (x y : float) :
  (x <=? y) = true -> exists b, rank (Prim2SF y) = Some b.
Proof.
  rewrite leb_spec. unfold SFleb. rewrite SFcompare_rank.
  destruct (rank (Prim2SF x)), (rank (Prim2SF y)); try discriminate; eauto.
Qed.

(** On values that are no NaN, [not (y < x)] is [x <= y]. *)
Lemma not_ltb_leb (x y : float) :
  (0 <=? x) = true -> (0 <=? y) = true -> (y <? x) = false -> (x <=? y) = true.
Proof.
  intros Hx Hy. apply leb_rank in Hx, Hy. destruct Hx as [a Ha], Hy as [b Hb].
  rewrite ltb_spec, leb_spec. unfold SFltb, SFleb. rewrite !SFcompare_rank, Ha, Hb.
  rewrite (lex_antisym a b). destruct (lex a b); cbn; congruence.
Qed.

Lemma ltb_leb (x y : float) : (x <? y) = true -> (x <=? y) = true.
Proof.
  rewrite ltb_spec, leb_spec. unfold SFltb, SFleb.
  destruct (SFcompare (Prim2SF x) (Prim2SF y)) as [[]|]; congruence.
Qed.

(** A value strictly below [x] is not [==] to what [x] is [==] to. *)
Lemma ltb_eqb_false (t x y : float) :
  (y <? x) = true -> (x =? t) = true -> (y =? t) = false.
Proof.
  rewrite ltb_spec, !FloatAxioms.eqb_spec. unfold SFltb, SFeqb.
  rewrite !SFcompare_rank.
  destruct (rank (Prim2SF x)) as [[[a1 a2] a3]|],
    (rank (Prim2SF y)) as [[[b1 b2] b3]|],
    (rank (Prim2SF t)) as [[[c1 c2] c3]|]; try discriminate; try reflexivity.
  destruct (lex (b1, b2, b3) (a1, a2, a3)) eqn:L1; try discriminate.
  destruct (lex (a1, a2, a3) (c1, c2, c3)) eqn:L2; try discriminate.
  destruct (lex (b1, b2, b3) (c1, c2, c3)) eqn:L3; try reflexivity.
  apply lex_lt_iff in L1. apply lex_eq_iff in L2, L3. lia.
Qed.

End FloatOrderFacts.

(* ------------------------------------------------------------------ *)
(** * The parser: timestamps, order and validity of the entries *)
(* ------------------------------------------------------------------ *)

Module LrcParserFacts.

Import LrcParser FloatOrderFacts.

(** The sums of the two tables are at least zero, by evaluation. *)
Lemma tables_nonneg :
  forallb (fun a => forallb (fun b => (0 <=? a + b)%float) millis_table)
          seconds_table = true.
Proof. vm_compute. reflexivity. Qed.

(** No timestamp the parser can compute is negative (or a NaN). *)
Lemma total_seconds_nonneg (mm ss ms_val : Z) :
  0 <= mm <= 99 -> 0 <= ss <= 99 -> 0 <= ms_val <= 999 ->
  (0 <=? total_seconds mm ss ms_val)%float = true.
Proof.
  intros Hm Hs Hv. unfold total_seconds.
  pose proof tables_nonneg as T.
  rewrite forallb_forall in T.
  assert (Ha : In (float_of_Z (mm * 60 + ss)) seconds_table).
  { unfold seconds_table.
    replace (mm * 60 + ss) with (Z.of_nat (Z.to_nat (mm * 60 + ss))) by lia.
    apply (in_map (fun n => float_of_Z (Z.of_nat n))), in_seq. lia. }
  specialize (T _ Ha). rewrite forallb_forall in T. apply T.
  unfold millis_table.
  replace ms_val with (Z.of_nat (Z.to_nat ms_val)) by lia.
  apply (in_map (fun m => (float_of_Z (Z.of_nat m) / 1000)%float)), in_seq. lia.
Qed.

(** ** Stripping *)

Lemma rstrip_cons_nonspace c r : isspace c = false -> rstrip (c :: r) = c :: rstrip r.
Proof. intros H. cbn. rewrite H. now destruct (rstrip r). Qed.

Lemma rstrip_app_nonspace l c r :
  isspace c = false -> rstrip (l ++ c :: r) = l ++ c :: rstrip r.
Proof.
  intros H. induction l as [|a l IH].
  - now apply rstrip_cons_nonspace.
  - cbn [app rstrip]. rewrite IH. now destruct l.
Qed.

Section WithDb.

Context {db : UnicodeDb}.

(** ** Digits *)

Lemma isdigit_decimal c :
  isdigit c = true -> exists v, decimal c = Some v /\ 0 <= v <= 9.
Proof.
  unfold isdigit. destruct (decimal c) as [v|] eqn:E; [|discriminate].
  intros _. exists v. split; [reflexivity|]. now apply (decimal_range c).
Qed.

Lemma decimal_isdigit c v : decimal c = Some v -> isdigit c = true.
Proof. unfold isdigit. now intros ->. Qed.

Lemma isdigit_bracket : isdigit 93 = false.
Proof. unfold isdigit. now rewrite decimal_ascii. Qed.

(** ** The pattern *)

(** The shape of a match: two digits, two digits, two or three digits. *)
Inductive tag_shape (g : groups) : Prop :=
| Shape2 m1 m2 s1 s2 f1 f2 :
    g = mkGroups [m1; m2] [s1; s2] [f1; f2] ->
    Forall (fun c => isdigit c = true) [m1; m2; s1; s2; f1; f2] ->
    tag_shape g
| Shape3 m1 m2 s1 s2 f1 f2 f3 :
    g = mkGroups [m1; m2] [s1; s2] [f1; f2; f3] ->
    Forall (fun c => isdigit c = true) [m1; m2; s1; s2; f1; f2; f3] ->
    tag_shape g.

Lemma match_here_shape s g r : match_here s = Some (g, r) -> tag_shape g.
Proof.
  unfold match_here.
  do 9 (destruct s as [|? s]; [discriminate|]).
  match goal with |- (if ?c then _ else _) = _ -> _ => destruct c eqn:C end;
    [|discriminate].
  repeat (apply andb_prop in C; destruct C as [C ?]).
  assert (Two : match s with
                | c3 :: r' =>
                    if (c3 =? 93)%N
                    then Some (mkGroups [n0; n1] [n3; n4] [n6; n7], r')
                    else None
                | [] => None
                end = Some (g, r) -> tag_shape g).
  { destruct s as [|c3 r']; [discriminate|].
    destruct (c3 =? 93)%N; [|discriminate].
    intros [= <- <-]. eapply Shape2; [reflexivity|]. repeat constructor; assumption. }
  destruct s as [|f3 [|c3 r']]; try exact Two.
  destruct (isdigit f3 && (c3 =? 93)%N)%bool eqn:D; [|exact Two].
  apply andb_prop in D. destruct D as [D _].
  intros [= <- <-]. eapply Shape3; [reflexivity|]. repeat constructor; assumption.
Qed.

Lemma search_shape s g : search s = Some g -> tag_shape g.
Proof.
  induction s as [|c s IH]; cbn [search].
  - destruct (match_here []) as [[g' r]|] eqn:M; [|discriminate].
    intros [= <-]. eapply match_here_shape, M.
  - destruct (match_here (c :: s)) as [[g' r]|] eqn:M.
    + intros [= <-]. eapply match_here_shape, M.
    + exact IH.
Qed.

(** ** [int] of the groups *)

Lemma int_str_2 c1 c2 v1 v2 :
  decimal c1 = Some v1 -> decimal c2 = Some v2 ->
  int_str [c1; c2] = Ok (10 * v1 + v2).
Proof. intros H1 H2. cbn [int_str int_digits]. rewrite H1, H2. f_equal; lia. Qed.

Lemma int_str_3 c1 c2 c3 v1 v2 v3 :
  decimal c1 = Some v1 -> decimal c2 = Some v2 -> decimal c3 = Some v3 ->
  int_str [c1; c2; c3] = Ok (100 * v1 + 10 * v2 + v3).
Proof. intros H1 H2 H3. cbn [int_str int_digits]. rewrite H1, H2, H3. f_equal; lia. Qed.

(** The three numbers [parse] reads from a match, with their ranges. *)
Lemma groups_values g :
  tag_shape g ->
  exists mm ss ms,
    int_str (g_mm g) = Ok mm /\ int_str (g_ss g) = Ok ss /\ int_str (g_ms g) = Ok ms /\
    0 <= mm <= 99 /\ 0 <= ss <= 99 /\
    0 <= (if (List.length (g_ms g) =? 2)%nat then ms * 10 else ms) <= 999.
Proof.
  intros [m1 m2 s1 s2 f1 f2 -> F | m1 m2 s1 s2 f1 f2 f3 -> F];
    repeat match goal with
           | H : Forall _ (_ :: _) |- _ => inversion H; subst; clear H
           | H : Forall _ [] |- _ => clear H
           | H : isdigit _ = true |- _ =>
               apply isdigit_decimal in H; destruct H as (? & ? & ?)
           end; cbn [g_mm g_ss g_ms].
  - eexists _, _, _. repeat split;
      try (eapply int_str_2; eassumption); cbn [List.length Nat.eqb]; lia.
  - eexists _, _, _. repeat split;
      try (eapply int_str_2; eassumption);
      try (eapply int_str_3; eassumption); cbn [List.length Nat.eqb]; lia.
Qed.

(** ** One line *)

(** A line either appends nothing or appends an entry with a non-empty
    text and a timestamp built from numbers in range; it never raises. *)
Lemma parse_line_cases line :
  parse_line line = Ok None \/
  exists mm ss ms_val txt,
    parse_line line = Ok (Some (mkLine (total_seconds mm ss ms_val) txt)) /\
    txt <> [] /\ txt = strip (sub_empty (strip line)) /\
    0 <= mm <= 99 /\ 0 <= ss <= 99 /\ 0 <= ms_val <= 999.
Proof.
  unfold parse_line.
  destruct (search (strip line)) as [g|] eqn:S; [|now left].
  destruct (groups_values g (search_shape _ _ S))
    as (mm & ss & ms & Hmm & Hss & Hms & Rm & Rs & Rv).
  rewrite Hms, Hmm, Hss. cbn [bind].
  destruct (strip (sub_empty (strip line))) as [|c txt] eqn:T; [now left|].
  right. exists mm, ss, (if (List.length (g_ms g) =? 2)%nat then ms * 10 else ms), (c :: txt).
  repeat split; try discriminate; lia.
Qed.

Lemma parse_line_valid line e : parse_line line = Ok (Some e) -> Spec.valid_entry e.
Proof.
  destruct (parse_line_cases line) as [H | (mm & ss & ms & txt & H & Ht & _ & Rm & Rs & Rv)];
    rewrite H; [discriminate|].
  intros [= <-]. split; [exact Ht|]. now apply total_seconds_nonneg.
Qed.

Lemma parse_line_total line : exists o, parse_line line = Ok o.
Proof.
  destruct (parse_line_cases line) as [H | (mm & ss & ms & txt & H & _)];
    rewrite H; eauto.
Qed.

(** A line whose text is empty once the tags are removed appends nothing. *)
Lemma parse_line_empty_text line :
  strip (sub_empty (strip line)) = [] -> parse_line line = Ok None.
Proof.
  intros E.
  destruct (parse_line_cases line) as [H | (mm & ss & ms & txt & _ & Ht & Hs & _)];
    [exact H|].
  congruence.
Qed.

(** ** The loop over the lines *)

Lemma parse_lines_spec lines : forall acc,
  exists l, parse_lines acc lines = Ok (acc ++ l) /\ Forall Spec.valid_entry l.
Proof.
  induction lines as [|line rest IH]; intros acc; cbn [parse_lines].
  - exists []. now rewrite app_nil_r.
  - destruct (parse_line_total line) as [o Ho]. rewrite Ho. cbn [bind].
    destruct o as [e|].
    + destruct (IH (acc ++ [e])) as (l & Hl & Fl).
      exists (e :: l). rewrite Hl, <- app_assoc. split; [reflexivity|].
      constructor; [|exact Fl]. eapply parse_line_valid, Ho.
    + apply IH.
Qed.

(** ** The sort *)

Lemma insert_perm x l : Permutation (x :: l) (insert x l).
Proof.
  induction l as [|y r IH]; cbn [insert]; [reflexivity|].
  destruct (time y <? time x)%float; [|reflexivity].
  rewrite perm_swap. now constructor.
Qed.

Lemma sort_perm l : Permutation l (sort l).
Proof.
  induction l as [|x r IH]; cbn [sort]; [constructor|].
  rewrite <- insert_perm. now constructor.
Qed.

Lemma insert_ascending x l :
  (0 <=? time x)%float = true ->
  Forall (fun e => (0 <=? time e)%float = true) l ->
  Spec.ascending l -> Spec.ascending (insert x l).
Proof.
  unfold Spec.ascending. intros Hx Hl Hs.
  induction Hs as [|y r Hr IH Hy]; cbn [insert].
  - repeat constructor.
  - inversion Hl as [|? ? Hy0 Hr0]; subst.
    destruct (time y <? time x)%float eqn:C.
    + constructor; [now apply IH|].
      rewrite <- (insert_perm x r). constructor; [now apply ltb_leb | exact Hy].
    + assert (Hxy : (time x <=? time y)%float = true) by now apply not_ltb_leb.
      constructor; [now constructor|].
      constructor; [exact Hxy|].
      eapply Forall_impl; [|exact Hy]. intros e He. cbn beta in He.
      eapply leb_trans; eassumption.
Qed.

Lemma sort_ascending l :
  Forall (fun e => (0 <=? time e)%float = true) l -> Spec.ascending (sort l).
Proof.
  induction 1 as [|x r Hx Hr IH]; cbn [sort]; [constructor|].
  apply insert_ascending; [exact Hx| |exact IH].
  now rewrite <- (sort_perm r).
Qed.

(** Entries with one timestamp keep their order: inserting [x] moves it
    only past entries that are strictly earlier. *)
Lemma insert_with_time t x l :
  Spec.with_time t (insert x l) = Spec.with_time t (x :: l).
Proof.
  unfold Spec.with_time.
  induction l as [|y r IH]; cbn [insert]; [reflexivity|].
  destruct (time y <? time x)%float eqn:C; [|reflexivity].
  cbn [filter] in *. rewrite IH.
  destruct (time x =? t)%float eqn:Ex, (time y =? t)%float eqn:Ey; try reflexivity.
  now rewrite (ltb_eqb_false t (time x) (time y) C Ex) in Ey.
Qed.

Lemma sort_with_time t l : Spec.with_time t (sort l) = Spec.with_time t l.
Proof.
  induction l as [|x r IH]; cbn [sort]; [reflexivity|].
  rewrite insert_with_time. unfold Spec.with_time in *. cbn [filter].
  now rewrite IH.
Qed.

(** ** The pattern on a well-formed line *)

Lemma match_here_two m1 m2 s1 s2 f1 f2 r :
  Forall (fun c => isdigit c = true) [m1; m2; s1; s2; f1; f2] ->
  match_here (91 :: m1 :: m2 :: 58 :: s1 :: s2 :: 46 :: f1 :: f2 :: 93 :: r)%N
  = Some (mkGroups [m1; m2] [s1; s2] [f1; f2], r).
Proof.
  intros F.
  repeat match goal with
         | H : Forall _ (_ :: _) |- _ => inversion H; subst; clear H
         end.
  cbn [match_here].
  repeat match goal with H : isdigit _ = true |- _ => rewrite H; clear H end.
  cbn [N.eqb Pos.eqb andb].
  destruct r as [|c3 r']; [reflexivity|].
  now rewrite isdigit_bracket.
Qed.

Lemma match_here_three m1 m2 s1 s2 f1 f2 f3 r :
  Forall (fun c => isdigit c = true) [m1; m2; s1; s2; f1; f2; f3] ->
  match_here (91 :: m1 :: m2 :: 58 :: s1 :: s2 :: 46 :: f1 :: f2 :: f3 :: 93 :: r)%N
  = Some (mkGroups [m1; m2] [s1; s2] [f1; f2; f3], r).
Proof.
  intros F.
  repeat match goal with
         | H : Forall _ (_ :: _) |- _ => inversion H; subst; clear H
         end.
  cbn [match_here].
  repeat match goal with H : isdigit _ = true |- _ => rewrite H; clear H end.
  reflexivity.
Qed.

Lemma search_head s g r : match_here s = Some (g, r) -> search s = Some g.
Proof. intros H. destruct s; cbn [search]; now rewrite H. Qed.

End WithDb.

End LrcParserFacts.

(* ------------------------------------------------------------------ *)
(** * Properties of [LrcParser.parse] *)
(* ------------------------------------------------------------------ *)

Module LrcParserProperties.

Import LrcParser LrcParserFacts Samples.

(** The milliseconds of a fractional field from the values of its digits:
    two digits are hundredths, three digits are milliseconds. *)
Definition millis_of (digits : list Z) : Z :=
  match digits with
  | [v1; v2] => (10 * v1 + v2) * 10
  | [v1; v2; v3] => 100 * v1 + 10 * v2 + v3
  | _ => 0
  end.

(** C5.  A well-formed tagged line [[MM:SS.ff]text] or [[MM:SS.fff]text]
    is parsed to the timestamp [MM*60 + SS + ms/1000], where a two-digit
    fraction is multiplied by ten to give the milliseconds and a
    three-digit fraction is taken as it is; the entry carries that
    timestamp whenever the line has a text left. *)
Theorem parsed_timestamp {db : UnicodeDb}
  (m1 m2 s1 s2 : N) (frac txt : str) (a1 a2 b1 b2 : Z) (fvals : list Z) :
  decimal m1 = Some a1 -> decimal m2 = Some a2 ->
  decimal s1 = Some b1 -> decimal s2 = Some b2 ->
  Forall2 (fun c v => decimal c = Some v) frac fvals ->
  (List.length frac = 2 \/ List.length frac = 3)%nat ->
  let line := Spec.tagged_line m1 m2 s1 s2 frac txt in
  parse_line line =
  Ok match strip (sub_empty (strip line)) with
     | [] => None
     | t => Some (mkLine (Spec.timestamp (10 * a1 + a2) (10 * b1 + b2)
                                         (millis_of fvals)) t)
     end.
Proof.
  intros Hm1 Hm2 Hs1 Hs2 Hf Hlen line.
  assert (Hstrip : strip line
                   = (([91; m1; m2; 58; s1; s2; 46]%N ++ frac) ++ 93%N :: rstrip txt)%list).
  { unfold line, Spec.tagged_line, strip. cbn [app lstrip].
    change (isspace 91) with false. cbn iota.
    change (91 :: m1 :: m2 :: 58 :: s1 :: s2 :: 46 :: frac ++ 93 :: txt)%N%list
      with (([91; m1; m2; 58; s1; s2; 46]%N ++ frac) ++ 93%N :: txt)%list.
    now apply rstrip_app_nonspace. }
  unfold parse_line. fold line. rewrite Hstrip.
  pose proof (decimal_isdigit _ _ Hm1) as D1.
  pose proof (decimal_isdigit _ _ Hm2) as D2.
  pose proof (decimal_isdigit _ _ Hs1) as D3.
  pose proof (decimal_isdigit _ _ Hs2) as D4.
  destruct Hlen as [Hlen | Hlen].
  - destruct Hf as [|f1 v1 ? ? Hv1 Hf]; [discriminate|].
    destruct Hf as [|f2 v2 ? ? Hv2 Hf]; [discriminate|].
    destruct Hf; [|discriminate].
    pose proof (decimal_isdigit _ _ Hv1) as D5.
    pose proof (decimal_isdigit _ _ Hv2) as D6.
    cbn [app].
    rewrite (search_head _ _ _
               (match_here_two m1 m2 s1 s2 f1 f2 (rstrip txt)
                  ltac:(repeat constructor; assumption))).
    cbn [g_mm g_ss g_ms].
    rewrite (int_str_2 _ _ _ _ Hv1 Hv2), (int_str_2 _ _ _ _ Hm1 Hm2),
      (int_str_2 _ _ _ _ Hs1 Hs2).
    cbn [bind List.length Nat.eqb millis_of]. unfold Spec.timestamp, total_seconds.
    match goal with
    | |- context [strip (sub_empty ?x)] => now destruct (strip (sub_empty x))
    end.
  - destruct Hf as [|f1 v1 ? ? Hv1 Hf]; [discriminate|].
    destruct Hf as [|f2 v2 ? ? Hv2 Hf]; [discriminate|].
    destruct Hf as [|f3 v3 ? ? Hv3 Hf]; [discriminate|].
    destruct Hf; [|discriminate].
    pose proof (decimal_isdigit _ _ Hv1) as D5.
    pose proof (decimal_isdigit _ _ Hv2) as D6.
    pose proof (decimal_isdigit _ _ Hv3) as D7.
    cbn [app].
    rewrite (search_head _ _ _
               (match_here_three m1 m2 s1 s2 f1 f2 f3 (rstrip txt)
                  ltac:(repeat constructor; assumption))).
    cbn [g_mm g_ss g_ms].
    rewrite (int_str_3 _ _ _ _ _ _ Hv1 Hv2 Hv3), (int_str_2 _ _ _ _ Hm1 Hm2),
      (int_str_2 _ _ _ _ Hs1 Hs2).
    cbn [bind List.length Nat.eqb millis_of]. unfold Spec.timestamp, total_seconds.
    match goal with
    | |- context [strip (sub_empty ?x)] => now destruct (strip (sub_empty x))
    end.
Qed.

(** The two lines of the design document: [[01:02.50]Hello] is read as
    62.5 s and [[00:00.123]Hi] as 0.123 s. *)
Lemma parsed_timestamp_witness :
  @parse_line ascii_db (lit "[01:02.50]Hello") = Ok (Some (mkLine 62.5 (lit "Hello")))
  /\ @parse_line ascii_db (lit "[00:00.123]Hi") = Ok (Some (mkLine 0.123 (lit "Hi"))).
Proof.
  split.
  - refine (@parsed_timestamp ascii_db 48 49 48 50 [53; 48]%N (lit "Hello")
              0 1 0 2 [5; 0] _ _ _ _ _ _);
      try reflexivity; [repeat constructor | left; reflexivity].
  - refine (@parsed_timestamp ascii_db 48 48 48 48 [49; 50; 51]%N (lit "Hi")
              0 0 0 0 [1; 2; 3] _ _ _ _ _ _);
      try reflexivity; [repeat constructor | right; reflexivity].
Defined.

(** C9.  For a file path that is empty or does not refer to an existing
    file, [parse] returns the empty sequence and raises nothing. *)
Theorem parse_missing_file {db : UnicodeDb} (fs : str -> fs_entry) (file_path : str) :
  file_path = [] \/ fs file_path = Absent ->
  parse fs file_path = Ok [].
Proof.
  intros [-> | H]; [reflexivity|].
  unfold parse, path_exists. rewrite H. now destruct file_path.
Qed.

(** A path that exists and cannot be opened is another matter: the
    exception of [open] leaves [parse]. *)
Lemma parse_unreadable_raises {db : UnicodeDb} (fs : str -> fs_entry)
  (file_path : str) (e : exn) :
  file_path <> [] -> fs file_path = Unreadable e -> parse fs file_path = Raise e.
Proof.
  intros Hne H. unfold parse, path_exists. rewrite H.
  now destruct file_path.
Qed.

Lemma parse_missing_file_witness :
  @parse ascii_db disk [] = Ok [] /\ @parse ascii_db disk (lit "other.lrc") = Ok [].
Proof.
  split.
  - apply (@parse_missing_file ascii_db disk []). left. reflexivity.
  - apply (@parse_missing_file ascii_db disk (lit "other.lrc")). right. reflexivity.
Defined.

(** What [parse] returns is the sort of what the loop appended. *)
Lemma parse_inv {db : UnicodeDb} fs file_path l :
  parse fs file_path = Ok l ->
  exists appended,
    l = sort appended /\ Forall Spec.valid_entry appended /\
    forall content,
      file_path <> [] -> fs file_path = Readable content ->
      parse_lines [] (readlines content) = Ok appended.
Proof.
  unfold parse, path_exists.
  destruct file_path as [|c path].
  - intros [= <-]. exists []. repeat split; [constructor | congruence].
  - destruct (fs (c :: path)) as [|e|content] eqn:F; cbn [negb].
    + intros [= <-]. exists []. repeat split; [constructor | discriminate].
    + discriminate.
    + destruct (parse_lines_spec (readlines content) []) as (a & Ha & Fa).
      rewrite Ha. cbn [bind app]. intros [= <-].
      exists a. repeat split; [exact Fa|]. now intros content' _ [= <-].
Qed.

(** C10.  Every entry [parse] returns has a non-empty text and a
    timestamp that is at least zero; a line whose text is empty once its
    tag is stripped appends nothing to the output. *)
Theorem parse_entries_valid {db : UnicodeDb} (fs : str -> fs_entry) (file_path : str)
  (l : list LyricLine) :
  parse fs file_path = Ok l ->
  Forall Spec.valid_entry l /\
  forall line lyrics rest,
    strip (sub_empty (strip line)) = [] ->
    parse_line line = Ok None /\
    parse_lines lyrics (line :: rest) = parse_lines lyrics rest.
Proof.
  intros H. split.
  - destruct (parse_inv _ _ _ H) as (a & -> & Fa & _).
    now rewrite <- (sort_perm a).
  - intros line lyrics rest E. pose proof (parse_line_empty_text line E) as N.
    split; [exact N|]. cbn [parse_lines]. now rewrite N.
Qed.

Lemma parse_entries_valid_witness :
  exists l, @parse ascii_db disk song_path = Ok l /\
            List.length l = 4%nat /\ Forall Spec.valid_entry l /\
            @parse_line ascii_db (lit "[00:07.00]  ") = Ok None.
Proof.
  eexists. split; [reflexivity|]. split; [reflexivity|].
  pose proof (@parse_entries_valid ascii_db disk song_path _ eq_refl) as [F D].
  split; [exact F|]. exact (proj1 (D (lit "[00:07.00]  ") [] [] eq_refl)).
Defined.

(** C6.  Whatever the order of the lines of the source, the sequence
    [parse] returns is in ascending order of timestamps, and it is a
    stable arrangement of the entries in the order the lines gave them:
    the entries with one timestamp keep their relative order. *)
Theorem parse_sorted_stable {db : UnicodeDb} (fs : str -> fs_entry) (file_path : str)
  (l : list LyricLine) :
  parse fs file_path = Ok l ->
  Spec.ascending l /\
  exists appended,
    (forall content,
        file_path <> [] -> fs file_path = Readable content ->
        parse_lines [] (readlines content) = Ok appended) /\
    Permutation appended l /\
    forall t, Spec.with_time t l = Spec.with_time t appended.
Proof.
  intros H. destruct (parse_inv _ _ _ H) as (a & -> & Fa & Hc).
  split.
  - apply sort_ascending. eapply Forall_impl; [|exact Fa]. now intros e [_ He].
  - exists a. split; [exact Hc|]. split; [apply sort_perm|].
    intros t. apply sort_with_time.
Qed.

Lemma parse_sorted_stable_witness :
  exists l, @parse ascii_db disk song_path = Ok l /\
            map text l = [lit "a"; lit "b"; lit "b again"; lit "c"] /\
            Spec.ascending l.
Proof.
  eexists. split; [reflexivity|]. split; [reflexivity|].
  exact (proj1 (@parse_sorted_stable ascii_db disk song_path _ eq_refl)).
Defined.

End LrcParserProperties.

(* ------------------------------------------------------------------ *)
(** * Properties of [FrameRenderer] *)
(* ------------------------------------------------------------------ *)

Module FrameRendererProperties.

Import LrcParser PIL FrameRenderer FloatOrderFacts Samples.

(** ** The active line *)

(** The scan started at index [i] with [idx] as the last accepted index
    either returns [idx], and then no entry is at or before [t], or it
    returns the index of the last entry that is. *)
Lemma scan_lines_spec (t : float) (l : list LyricLine) :
  Spec.ascending l ->
  forall idx i,
    let r := scan_lines idx i l t in
    (r = idx \/
     exists line, nth_error l (Z.to_nat (r - i)) = Some line /\ i <= r /\
                  (time line <=? t)%float = true) /\
    forall (j : nat) line,
      nth_error l j = Some line -> (time line <=? t)%float = true ->
      i + Z.of_nat j <= r.
Proof.
  unfold Spec.ascending.
  induction 1 as [|line rest Hs IH Hle]; intros idx i; cbn [scan_lines].
  - split; [now left|]. intros [|j] ? [=].
  - destruct (time line <=? t)%float eqn:C.
    + specialize (IH i (i + 1)). cbn zeta in IH. destruct IH as [IH1 IH2].
      set (r := scan_lines i (i + 1) rest t) in *.
      assert (Hr : i <= r).
      { destruct IH1 as [-> | (? & _ & ? & _)]; lia. }
      split.
      * right. destruct IH1 as [-> | (line' & Hn & Hi & Hl)].
        -- exists line. replace (i - i) with 0 by lia. now repeat split; try lia.
        -- exists line'. repeat split; try lia; try assumption.
           replace (Z.to_nat (r - i)) with (S (Z.to_nat (r - (i + 1)))) by lia.
           exact Hn.
      * intros [|j] line' Hn Hl; [lia|].
        specialize (IH2 j line' Hn Hl). lia.
    + split; [now left|].
      intros [|j] line' Hn Hl; cbn [nth_error] in Hn.
      * injection Hn as <-. congruence.
      * exfalso. apply nth_error_In in Hn.
        rewrite Forall_forall in Hle. specialize (Hle _ Hn).
        rewrite (leb_trans _ _ _ Hle Hl) in C. discriminate.
Qed.

(** C4.  On a track in ascending order of timestamps,
    [get_current_line_index] returns the greatest index whose timestamp is
    at most the query timestamp, and [-1] when there is none (as on the
    empty track). *)
Theorem current_line_is_greatest (lyrics : list LyricLine) (t : float) :
  Spec.ascending lyrics ->
  Spec.greatest_index_upto lyrics t (get_current_line_index lyrics t).
Proof.
  intros Hs. unfold Spec.greatest_index_upto, get_current_line_index.
  destruct (scan_lines_spec t lyrics Hs (-1) 0) as [H1 H2]. split.
  - destruct H1 as [H1 | (line & Hn & Hi & Hl)]; [now left|].
    right. exists line. rewrite Z.sub_0_r in Hn. now repeat split.
  - intros j line Hn Hl. specialize (H2 j line Hn Hl). lia.
Qed.

(** The track [[(0,"a"), (2,"b"), (5,"c")]]: 1 gives 0, 2 gives 1, 5.5
    gives 2 and -1 gives -1. *)
Lemma current_line_is_greatest_witness :
  get_current_line_index track3 1 = 0 /\
  get_current_line_index track3 2 = 1 /\
  get_current_line_index track3 5.5 = 2 /\
  get_current_line_index track3 (-1) = -1 /\
  get_current_line_index [] 1 = -1 /\
  Spec.greatest_index_upto track3 5.5 2.
Proof.
  repeat (split; [reflexivity|]).
  apply (current_line_is_greatest track3 5.5).
  unfold Spec.ascending, track3. repeat constructor.
Defined.

(** ** The lines of a frame *)

Lemma in_filter_some {A B} (f : A -> option B) (l : list A) (b : B) :
  In b (filter_some f l) -> exists a, In a l /\ f a = Some b.
Proof.
  induction l as [|a r IH]; cbn [filter_some]; [contradiction|].
  destruct (f a) as [b'|] eqn:F.
  - intros [<- | H]; [exists a; split; [now left|assumption]|].
    destruct (IH H) as (a' & ? & ?). exists a'. split; [now right|assumption].
  - intros H. destruct (IH H) as (a' & ? & ?). exists a'. split; [now right|assumption].
Qed.

(** Every entry of the render list is the line at its distance from the
    centre line. *)
Lemma in_neighbours curr len n : forall i idx dist,
  In (idx, dist) (neighbours curr len i n) -> idx = curr + dist.
Proof.
  induction n as [|n IH]; intros i idx dist; cbn [neighbours]; [contradiction|].
  rewrite !in_app_iff. intros [H | [H | H]].
  - destruct (curr - i >=? 0); [|contradiction].
    destruct H as [[= <- <-] | []]. lia.
  - destruct (curr + i <? len); [|contradiction].
    destruct H as [[= <- <-] | []]. lia.
  - eapply IH, H.
Qed.

Lemma in_render_list curr len v idx dist :
  In (idx, dist) (render_list curr len v) -> idx = curr + dist.
Proof.
  unfold render_list. intros [[= <- <-] | H]; [lia|]. eapply in_neighbours, H.
Qed.

(** What a job of the frame is made of. *)
Lemma frame_job_inv prm lyrics t j :
  In j (frame_jobs prm lyrics t) ->
  exists line,
    j_idx j = get_current_line_index lyrics t + j_dist j /\
    nth_error lyrics (Z.to_nat (j_idx j)) = Some line /\
    layout prm lyrics (j_idx j, j_dist j) = Some j /\
    j_text j = text line.
Proof.
  unfold frame_jobs. intros H.
  apply in_filter_some in H. destruct H as ([idx dist] & Hin & Hl).
  apply in_render_list in Hin.
  pose proof Hl as Hl'. unfold layout in Hl.
  destruct ((idx <? 0) || (idx >=? Z.of_nat (List.length lyrics)))%bool; [discriminate|].
  destruct (nth_error lyrics (Z.to_nat idx)) as [line|] eqn:N; [|discriminate].
  injection Hl as <-. cbn [j_idx j_dist j_text]. exists line. now repeat split.
Qed.

Lemma abs_eqb_0 z : (Z.abs z =? 0) = (z =? 0).
Proof. destruct z; reflexivity. Qed.

(** What [layout] computes, read at the absolute distance. *)
Lemma layout_style prm lyrics idx dist j :
  layout prm lyrics (idx, dist) = Some j ->
  j_dist j = dist /\
  j_scale j = Spec.scale_at prm (Z.abs dist) /\
  j_alpha j = Spec.alpha_at prm (Z.abs dist) /\
  j_blur j = Spec.blur_at prm (Z.abs dist) /\
  j_y j = center_y prm + dist * (font_size prm + line_spacing prm).
Proof.
  unfold layout.
  destruct ((idx <? 0) || (idx >=? Z.of_nat (List.length lyrics)))%bool; [discriminate|].
  destruct (nth_error lyrics (Z.to_nat idx)) as [line|]; [|discriminate].
  intros [= <-]. cbn [j_dist j_scale j_alpha j_blur j_y].
  unfold Spec.scale_at, Spec.alpha_at, Spec.blur_at. rewrite abs_eqb_0.
  repeat split; destruct (dist =? 0); reflexivity.
Qed.

(** C1.  For every line the renderer draws, at absolute distance [d] from
    the active line: the scale is [max(0.1, 1 - scale_decay*d)], the alpha
    is [max(0, 255 - fade_decay*d*50)] and 255 when [d = 0], and the blur
    radius is [blur_base + blur_increment*d] and 0 when [d = 0]. *)
Theorem line_style_by_distance (prm : params) (lyrics : list LyricLine) (t : float)
  (j : line_job) :
  In j (frame_jobs prm lyrics t) ->
  let d := Z.abs (j_dist j) in
  j_idx j = get_current_line_index lyrics t + j_dist j /\
  j_scale j = Spec.scale_at prm d /\
  j_alpha j = Spec.alpha_at prm d /\
  j_blur j = Spec.blur_at prm d.
Proof.
  intros H d. destruct (frame_job_inv _ _ _ _ H) as (line & Hi & _ & Hl & _).
  split; [exact Hi|].
  destruct (layout_style _ _ _ _ _ Hl) as (_ & Hs & Ha & Hb & _).
  now repeat split.
Qed.

Lemma line_style_by_distance_witness :
  exists j,
    In j (frame_jobs default_params track3 2.5) /\
    j_text j = lit "c" /\ j_dist j = 1 /\
    j_scale j = 0.9%float /\ j_alpha j = PyFloat 230 /\ j_blur j = PyFloat 2.
Proof.
  exists (mkJob 2 1 (lit "c") 0.9 (PyFloat 230) (PyFloat 2) 795).
  assert (H : In (mkJob 2 1 (lit "c") 0.9 (PyFloat 230) (PyFloat 2) 795)
                 (frame_jobs default_params track3 2.5)).
  { right. right. left. reflexivity. }
  pose proof (line_style_by_distance default_params track3 2.5 _ H) as W.
  cbn zeta in W. destruct W as (_ & W1 & W2 & W3).
  split; [exact H|]. split; [reflexivity|]. split; [reflexivity|].
  split; [exact W1|]. split; [exact W2 | exact W3].
Defined.




(** ** Compositing *)

Section WithPillow.

Context {pil : Pillow}.

(** C7.  A line whose alpha is at most 5 is skipped by
    [draw_text_with_effects], which returns no layer, and the turn of the
    drawing loop for that line returns the frame as it was: every pixel
    keeps its value, so what was transparent stays transparent, and the
    rest of the frame is composited as if the line were not there. *)
Theorem faint_line_skipped (R : renderer) (img : Image) (j : line_job)
  (rest : list line_job) :
  num_leb (j_alpha j) (PyInt 5) = true ->
  (forall text x y f color scale blur_radius al sh st,
      draw_text_with_effects text x y f color (j_alpha j) scale blur_radius al sh st
      = Ok NoLayer) /\
  composite R img j = Ok img /\
  (forall x y, pixel_at img x y = Some (0, 0, 0, 0) ->
               exists img', composite R img j = Ok img' /\
                            pixel_at img' x y = Some (0, 0, 0, 0)) /\
  composite_all R img (j :: rest) = composite_all R img rest.
Proof.
  intros H.
  assert (D : forall text x y f color scale blur_radius al sh st,
             draw_text_with_effects text x y f color (j_alpha j) scale
               blur_radius al sh st = Ok NoLayer).
  { intros. unfold draw_text_with_effects. now rewrite H. }
  assert (C : composite R img j = Ok img).
  { unfold composite. now rewrite D. }
  split; [exact D|]. split; [exact C|]. split.
  - intros x y Hp. exists img. now split.
  - cbn [composite_all]. now rewrite C.
Qed.

(** ** The size of a frame *)

Lemma map_indexed_length f l : forall i, List.length (map_indexed f i l) = List.length l.
Proof. induction l as [|px r IH]; intros i; cbn; [reflexivity|]. now rewrite IH. Qed.

Lemma build_indexed_length f n : forall i, List.length (build_indexed f i n) = n.
Proof. induction n as [|n IH]; intros i; cbn; [reflexivity|]. now rewrite IH. Qed.

Lemma pointwise_size f im : size_of (pointwise f im) = size_of im.
Proof. unfold size_of, pointwise. cbn. now rewrite map_indexed_length. Qed.

Lemma draw_text_size im xy txt f fill sw sf :
  size_of (draw_text im xy txt f fill sw sf) = size_of im.
Proof. apply pointwise_size. Qed.

Lemma paste_size dest src dx dy : size_of (paste dest src dx dy) = size_of dest.
Proof. apply pointwise_size. Qed.

Lemma Image_new_size w h c im :
  Image_new w h c = Ok im ->
  size_of im = (w, h, Z.to_nat (w * h)) /\ 0 <= w /\ 0 <= h.
Proof.
  unfold Image_new. destruct (w <? 0) eqn:W; [discriminate|].
  destruct (h <? 0) eqn:Hh; [discriminate|]. cbn [orb].
  intros [= <-]. unfold size_of. cbn. rewrite repeat_length. repeat split; lia.
Qed.

Lemma draw_header_size R im im' :
  draw_header R im = Ok im' -> size_of im' = size_of im.
Proof.
  unfold draw_header, text_length.
  destruct (existsb _ (meta_title (p R))); cbn [bind]; [discriminate|].
  destruct (existsb _ (info_text (p R))); cbn [bind]; [discriminate|].
  intros [= <-]. now rewrite !draw_text_size.
Qed.

Lemma composite_size R im j im' : composite R im j = Ok im' -> size_of im' = size_of im.
Proof.
  unfold composite.
  destruct (draw_text_with_effects _ _ _ _ _ _ _ _ _ _ _) as [[| |layer dx dy]|e];
    cbn [bind]; try discriminate.
  - now intros [= <-].
  - intros [= <-]. apply paste_size.
Qed.

Lemma composite_all_size R jobs : forall im im',
  composite_all R im jobs = Ok im' -> size_of im' = size_of im.
Proof.
  induction jobs as [|j rest IH]; intros im im'; cbn [composite_all].
  - now intros [= <-].
  - destruct (composite R im j) as [im1|e] eqn:C; cbn [bind]; [|discriminate].
    intros H. rewrite (IH _ _ H). eapply composite_size, C.
Qed.

(** A rendered frame has the size of the canvas. *)
Lemma render_size R t im :
  render R t = Ok im ->
  size_of im = (width (p R), height (p R), Z.to_nat (width (p R) * height (p R)))
  /\ 0 <= width (p R) /\ 0 <= height (p R).
Proof.
  unfold render.
  destruct (Image_new _ _ _) as [im0|e] eqn:N; cbn [bind]; [|discriminate].
  destruct (draw_header R im0) as [im1|e] eqn:Hd; cbn [bind]; [|discriminate].
  intros H. apply composite_all_size in H.
  rewrite (draw_header_size _ _ _ Hd) in H. rewrite H. eapply Image_new_size, N.
Qed.



End WithPillow.

Lemma faint_line_skipped_witness :
  In faint_job (frame_jobs small_params track3 2.5) /\
  composite (init small_params track3) (mkImage 1 1 [(0, 0, 0, 0)]) faint_job
  = Ok (mkImage 1 1 [(0, 0, 0, 0)]).
Proof.
  split; [right; right; left; reflexivity|].
  apply (@faint_line_skipped box_pillow (init small_params track3)
           (mkImage 1 1 [(0, 0, 0, 0)]) faint_job []).
  reflexivity.
Defined.

End FrameRendererProperties.

(* ------------------------------------------------------------------ *)
(** * Properties of [ExportThread.run] *)
(* ------------------------------------------------------------------ *)

Module ExportThreadProperties.

Import LrcParser PIL FrameRenderer ExportThread FrameRendererProperties Samples.

Section WithPillow.

Context {pil : Pillow}.

Lemma init_p prm lrc : p (init prm lrc) = prm.
Proof.
  unfold init.
  repeat match goal with
         | |- context [match ?x with _ => _ end] => destruct x
         end; reflexivity.
Qed.

Lemma writes_app a b : writes (a ++ b) = (writes a ++ writes b)%list.
Proof.
  induction a as [|e a IH]; [reflexivity|].
  destruct e; cbn [app writes]; now rewrite ?IH.
Qed.

(** A progress report writes nothing and notifies neither an end nor an
    error. *)
Lemma progress_events total i evs :
  progress total i = Ok evs ->
  writes evs = [] /\ forallb (fun e => negb (is_notification e)) evs = true.
Proof.
  unfold progress. destruct (Z.of_nat i mod 10 =? 0).
  - destruct (py_int _) as [v|e]; cbn [bind]; [|discriminate].
    now intros [= <-].
  - now intros [= <-].
Qed.

Lemma frame_ok_inv R total i :
  frame_ok R total i = true ->
  exists img evs, render R (frame_time i) = Ok img /\ progress total i = Ok evs.
Proof.
  unfold frame_ok.
  destruct (render R (frame_time i)) as [img|]; [|discriminate].
  destruct (progress total i) as [evs|]; [|discriminate].
  intros _. now exists img, evs.
Qed.

(** ** A run that is not cancelled *)


(** A duration that is not a whole number of seconds, which the spin box
    of the window cannot give, is truncated and not rounded: an export of
    1.99 seconds that runs to its end writes 59 frames, and
    [round(1.99 * 30)] is 60. *)
Lemma fractional_duration_truncated :
  let tr := @run box_pillow fractional_params track3 (lit "out.mov") quiet in
  In Finished tr /\
  exists n, Spec.rounded_frames fractional_params = Ok n /\
            List.length (writes tr) <> Z.to_nat n.
Proof.
  cbv zeta. split.
  - assert (H : existsb (fun e => match e with Finished => true | _ => false end)
                  (@run box_pillow fractional_params track3 (lit "out.mov") quiet)
                = true) by (vm_compute; reflexivity).
    apply existsb_exists in H. destruct H as ([] & Hin & Hf); try discriminate.
    exact Hin.
  - exists 60. split; [vm_compute; reflexivity|].
    assert (H : List.length
                  (writes (@run box_pillow fractional_params track3
                             (lit "out.mov") quiet)) = 59%nat)
      by (vm_compute; reflexivity).
    rewrite H. discriminate.
Qed.


(** ** A run that is cancelled *)

Lemma frames_cancelled R E total k n : forall i is_running,
  (i <= k < i + n)%nat ->
  stop_called E k = true ->
  (forall m, (i <= m < k)%nat -> frame_ok R total m = true) ->
  let tr := frames R E total n i is_running in
  (List.length (writes tr) <= k - i)%nat /\
  (exists before, tr = before ++ [CloseStdin; Wait])%list /\
  forallb (fun e => negb (is_notification e)) tr = true.
Proof.
  induction n as [|n IH]; intros i is_running Hk Hstop Hok; [lia|].
  cbn [frames]. cbv zeta.
  assert (Stop : let tr := [CloseStdin; Wait] in
                 (List.length (writes tr) <= k - i)%nat /\
                 (exists before, tr = before ++ [CloseStdin; Wait])%list /\
                 forallb (fun e => negb (is_notification e)) tr = true).
  { cbn. repeat split; [lia|]. now exists []. }
  destruct (stop_called E i) eqn:Si; [exact Stop|].
  destruct is_running; [|exact Stop]. cbn [negb].
  assert (Hik : (i < k)%nat).
  { destruct (Nat.eq_dec i k) as [->|]; [congruence | lia]. }
  destruct (frame_ok_inv R total i (Hok i ltac:(lia))) as (img & evs & Hr & Hp).
  rewrite Hr, Hp.
  destruct (progress_events _ _ _ Hp) as [Hw Hn].
  destruct (IH (S i) true ltac:(lia) Hstop ltac:(intros m Hm; apply Hok; lia))
    as (L & (before & B) & N).
  cbv zeta in L, B, N. repeat split.
  - cbn [writes List.length]. rewrite writes_app, Hw. cbn [app]. lia.
  - exists (Write (tobytes img) :: evs ++ before)%list.
    rewrite B. cbn [app]. now rewrite <- app_assoc.
  - cbn [forallb is_notification negb andb]. rewrite forallb_app, Hn. exact N.
Qed.

(** C8.  When [stop] has been called before the loop opens frame [k] (at
    the latest right before the test of the flag for frame [k]), the run
    writes at most [k] frames, then closes the standard input of the
    encoder, waits for it to exit, and ends without a completion and
    without an error notification. *)
Theorem cancel_stops_export (prm : params) (lrc : list LyricLine)
  (output_path : str) (E : env) (n : Z) (j k : nat) :
  total_frames prm = Ok n ->
  (j <= k)%nat ->
  stop_called E j = true ->
  Z.of_nat k < n ->
  forallb (frame_ok (init prm lrc) n) (seq 0 k) = true ->
  let tr := run prm lrc output_path E in
  (List.length (writes tr) <= k)%nat /\
  (exists before, tr = before ++ [CloseStdin; Wait])%list /\
  forallb (fun e => negb (is_notification e)) tr = true.
Proof.
  intros Ht Hjk Hstop Hk Hok tr. rewrite forallb_forall in Hok.
  destruct (frames_cancelled (init prm lrc) E n j (Z.to_nat n) 0 true
              ltac:(lia) Hstop)
    as (L & (before & B) & N).
  { intros m Hm. apply Hok, in_seq. lia. }
  cbv zeta in L, B, N. unfold tr, run. rewrite Ht. repeat split.
  - cbn [writes]. lia.
  - exists (Popen (width prm) (height prm) fps (bitrate prm) output_path :: before).
    now rewrite B.
  - cbn [forallb is_notification negb andb]. exact N.
Qed.

End WithPillow.


Lemma cancel_stops_export_witness :
  (List.length (writes (run small_params track3 (lit "out.mov") stopped_at_3)) <= 3)%nat /\
  forallb (fun e => negb (is_notification e))
          (run small_params track3 (lit "out.mov") stopped_at_3) = true.
Proof.
  assert (Hok : forallb (frame_ok (init small_params track3) 30) (seq 0 3) = true).
  { vm_compute. reflexivity. }
  pose proof (@cancel_stops_export box_pillow small_params track3
                (lit "out.mov") stopped_at_3 30 3 3 eq_refl (le_n 3) eq_refl
                eq_refl Hok) as W.
  cbv zeta in W. destruct W as (W1 & _ & W3). split; [exact W1 | exact W3].
Defined.

End ExportThreadProperties.

(* ------------------------------------------------------------------ *)
(** * Further properties of [LrcParser.parse] *)
(* ------------------------------------------------------------------ *)

Module LrcParserExtras.

Import LrcParser LrcParserFacts Notions Samples.

(** ** Lines *)

Lemma split_keepends_concat s : concat (split_keepends s) = s.
Proof.
  induction s as [|c r IH]; [reflexivity|]. cbn [split_keepends].
  destruct (c =? 10)%N.
  - cbn [concat app]. now rewrite IH.
  - destruct (split_keepends r) as [|l ls]; cbn [concat app] in *.
    + now rewrite <- IH.
    + now rewrite <- IH.
Qed.

Lemma split_keepends_lines s : Forall one_line (split_keepends s).
Proof.
  induction s as [|c r IH]; [constructor|]. cbn [split_keepends].
  destruct (c =? 10)%N eqn:C.
  - constructor; [|exact IH]. split; [discriminate|]. intros [].
  - apply N.eqb_neq in C.
    destruct (split_keepends r) as [|l ls].
    + constructor; [|constructor]. split; [discriminate|]. intros [].
    + inversion IH as [|? ? [Hne Hl] Hls]; subst.
      constructor; [|exact Hls]. split; [discriminate|].
      destruct l as [|d l]; [contradiction|].
      cbn [removelast]. intros [H | H]; [congruence | exact (Hl H)].
Qed.

Lemma translate_newlines_spec n : forall s,
  (List.length s <= n)%nat ->
  ~ In 13%N (translate_newlines s) /\
  (~ In 13%N s -> translate_newlines s = s).
Proof.
  induction n as [|n IH]; intros s Hn.
  - destruct s; [|cbn in Hn; lia]. split; [intros []|reflexivity].
  - destruct s as [|c r]; [split; [intros []|reflexivity]|].
    cbn [List.length] in Hn. cbn [translate_newlines].
    destruct (c =? 13)%N eqn:C.
    + apply N.eqb_eq in C. subst c. split.
      * destruct r as [|d r'].
        -- intros [H | []]. discriminate.
        -- cbn [List.length] in Hn.
           destruct (d =? 10)%N.
           ++ intros [H | H]; [discriminate|]. now apply (IH r' ltac:(lia)).
           ++ intros [H | H]; [discriminate|].
              now apply (IH (d :: r') ltac:(cbn; lia)).
      * intros H. exfalso. apply H. now left.
    + apply N.eqb_neq in C. destruct (IH r ltac:(lia)) as [H1 H2]. split.
      * intros [H | H]; [congruence | exact (H1 H)].
      * intros H. rewrite H2; [reflexivity|]. intros Hin. apply H. now right.
Qed.

(** X1.  [readlines] loses nothing: the lines put end to end are the
    content with every ["\r\n"] and ["\r"] read as ["\n"], which is the
    content itself when it holds no ["\r"]; every line is non-empty, holds
    no ["\r"] and holds a ["\n"] only as its last character. *)
Theorem readlines_concat (content : str) :
  concat (readlines content) = translate_newlines content /\
  (~ In 13%N content -> concat (readlines content) = content) /\
  Forall (fun line => line <> [] /\ ~ In 13%N line /\ ~ In 10%N (removelast line))
         (readlines content).
Proof.
  unfold readlines.
  destruct (translate_newlines_spec (List.length content) content (le_n _)) as [H1 H2].
  rewrite split_keepends_concat. split; [reflexivity|]. split; [exact H2|].
  apply Forall_forall. intros line Hin.
  pose proof (split_keepends_lines (translate_newlines content)) as F.
  rewrite Forall_forall in F. destruct (F line Hin) as [Hne Hl].
  repeat split; try assumption.
  intros H13. apply H1. rewrite <- (split_keepends_concat (translate_newlines content)).
  apply in_concat. now exists line.
Qed.

Section WithDb.

Context {db : UnicodeDb}.

(** ** Lines without a tag *)

Lemma match_here_bracket s g r : match_here s = Some (g, r) -> In 91%N s.
Proof.
  unfold match_here.
  do 9 (destruct s as [|? s]; [discriminate|]).
  destruct (n =? 91)%N eqn:C; [|discriminate].
  apply N.eqb_eq in C. subst. intros _. now left.
Qed.

Lemma search_bracket s g : search s = Some g -> In 91%N s.
Proof.
  induction s as [|c s IH]; cbn [search].
  - destruct (match_here []) as [[g' r]|] eqn:M; [|discriminate].
    intros _. eapply match_here_bracket, M.
  - destruct (match_here (c :: s)) as [[g' r]|] eqn:M.
    + intros _. eapply match_here_bracket, M.
    + intros H. right. now apply IH.
Qed.

Lemma lstrip_incl s x : In x (lstrip s) -> In x s.
Proof.
  induction s as [|c r IH]; cbn [lstrip]; [trivial|].
  destruct (isspace c); [intros H; right; now apply IH | trivial].
Qed.

Lemma rstrip_incl s x : In x (rstrip s) -> In x s.
Proof.
  induction s as [|c r IH]; cbn [rstrip]; [trivial|].
  destruct (rstrip r) as [|d r'].
  - destruct (isspace c); [intros [] | intros [<- | []]; now left].
  - intros [<- | H]; [now left | right; now apply IH].
Qed.

Lemma strip_incl s x : In x (strip s) -> In x s.
Proof. intros H. now apply lstrip_incl, rstrip_incl. Qed.

(** X2.  A line that holds no opening bracket appends nothing, whatever
    else it holds, and the lines after it are parsed as if it were not
    there. *)
Theorem untagged_line_ignored (line : str) (lyrics : list LyricLine) (rest : list str) :
  ~ In 91%N line ->
  parse_line line = Ok None /\
  parse_lines lyrics (line :: rest) = parse_lines lyrics rest.
Proof.
  intros H.
  assert (N : parse_line line = Ok None).
  { unfold parse_line.
    destruct (search (strip line)) as [g|] eqn:S; [|reflexivity].
    exfalso. apply H. eapply strip_incl, search_bracket, S. }
  split; [exact N|]. cbn [parse_lines]. now rewrite N.
Qed.

(** ** What holds of every entry *)

Lemma parse_lines_forall (P : LyricLine -> Prop) :
  (forall line e, parse_line line = Ok (Some e) -> P e) ->
  forall lines acc l,
    parse_lines acc lines = Ok l -> Forall P acc ->
    Forall P l /\ (List.length l <= List.length acc + List.length lines)%nat.
Proof.
  intros HP. induction lines as [|line rest IH]; intros acc l; cbn [parse_lines].
  - intros [= <-] Ha. split; [exact Ha | lia].
  - destruct (parse_line line) as [[e|]|x] eqn:E; cbn [bind]; [| |discriminate].
    + intros H Ha.
      destruct (IH _ _ H) as [F L].
      { apply Forall_app. split; [exact Ha|]. constructor; [|constructor].
        eapply HP, E. }
      split; [exact F|]. rewrite length_app in L. cbn [List.length] in *. lia.
    + intros H Ha. destruct (IH _ _ H Ha) as [F L].
      split; [exact F|]. cbn [List.length]. lia.
Qed.

Lemma parse_forall (P : LyricLine -> Prop) fs file_path l :
  (forall line e, parse_line line = Ok (Some e) -> P e) ->
  parse fs file_path = Ok l -> Forall P l.
Proof.
  intros HP. unfold parse.
  destruct file_path as [|c path]; [intros [= <-]; constructor|].
  destruct (negb (path_exists fs (c :: path))); [intros [= <-]; constructor|].
  destruct (fs (c :: path)) as [|e|content]; try discriminate.
  destruct (parse_lines [] (readlines content)) as [a|e] eqn:PL; cbn [bind];
    [|discriminate].
  intros [= <-]. rewrite <- (sort_perm a).
  now apply (parse_lines_forall P HP _ _ _ PL).
Qed.

(** X3.  A file that can be read is parsed without an exception, whatever
    it holds, and gives at most one entry for each of its lines. *)
Theorem parse_readable (fs : str -> fs_entry) (file_path content : str) :
  file_path <> [] ->
  fs file_path = Readable content ->
  exists l, parse fs file_path = Ok l /\
            (List.length l <= List.length (readlines content))%nat.
Proof.
  intros Hne Hf. unfold parse, path_exists. rewrite Hf.
  destruct file_path as [|c path]; [congruence|]. cbn [negb].
  destruct (parse_lines_spec (readlines content) []) as (a & Ha & _).
  rewrite Ha. cbn [bind app]. exists (sort a). split; [reflexivity|].
  rewrite <- (Permutation_length (sort_perm a)).
  destruct (parse_lines_forall (fun _ => True) (fun _ _ _ => I) _ _ _ Ha (Forall_nil _))
    as [_ L].
  exact L.
Qed.

(** ** The text of an entry *)

Lemma lstrip_head s c r : lstrip s = c :: r -> isspace c = false.
Proof.
  induction s as [|d s IH]; cbn [lstrip]; [discriminate|].
  destruct (isspace d) eqn:D; [exact IH|]. now intros [= <- _].
Qed.

Lemma rstrip_head s c r : rstrip s = c :: r -> exists r', s = c :: r'.
Proof.
  destruct s as [|d s]; cbn [rstrip]; [discriminate|].
  destruct (rstrip s).
  - destruct (isspace d); [discriminate|]. intros [= <- _]. now exists s.
  - intros [= <- _]. now exists s.
Qed.

Lemma rstrip_last s d : rstrip s <> [] -> isspace (last (rstrip s) d) = false.
Proof.
  induction s as [|c s IH]; cbn [rstrip]; [congruence|].
  destruct (rstrip s) as [|e r'] eqn:R.
  - destruct (isspace c) eqn:C; [congruence|]. intros _. exact C.
  - intros _. change (last (c :: e :: r') d) with (last (e :: r') d).
    apply IH. discriminate.
Qed.

Lemma strip_trimmed s : strip s <> [] -> trimmed (strip s).
Proof.
  unfold strip, trimmed. intros H.
  destruct (rstrip (lstrip s)) as [|c r] eqn:R; [congruence|].
  exists c, r. split; [reflexivity|]. split.
  - destruct (rstrip_head _ _ _ R) as [r' Hr]. eapply lstrip_head, Hr.
  - rewrite <- R. apply rstrip_last. rewrite R. discriminate.
Qed.

(** The sums of the two tables are below 6040, by evaluation. *)
Lemma tables_below :
  forallb (fun a => forallb (fun b => (a + b <? 6040)%float) millis_table)
          seconds_table = true.
Proof. vm_compute. reflexivity. Qed.

Lemma total_seconds_below (mm ss ms_val : Z) :
  0 <= mm <= 99 -> 0 <= ss <= 99 -> 0 <= ms_val <= 999 ->
  (total_seconds mm ss ms_val <? 6040)%float = true.
Proof.
  intros Hm Hs Hv. unfold total_seconds.
  pose proof tables_below as T. rewrite forallb_forall in T.
  assert (Ha : In (float_of_Z (mm * 60 + ss)) seconds_table).
  { unfold seconds_table.
    replace (mm * 60 + ss) with (Z.of_nat (Z.to_nat (mm * 60 + ss))) by lia.
    apply (in_map (fun n => float_of_Z (Z.of_nat n))), in_seq. lia. }
  specialize (T _ Ha). rewrite forallb_forall in T. apply T.
  unfold millis_table.
  replace ms_val with (Z.of_nat (Z.to_nat ms_val)) by lia.
  apply (in_map (fun m => (float_of_Z (Z.of_nat m) / 1000)%float)), in_seq. lia.
Qed.

(** X4.  The text of every entry [parse] returns starts and ends with a
    character that is not a space, and its timestamp is below 6040
    seconds, the bound of [99:99.999]. *)
Theorem parse_entries_trimmed (fs : str -> fs_entry) (file_path : str)
  (l : list LyricLine) :
  parse fs file_path = Ok l ->
  Forall (fun e => trimmed (text e) /\ (time e <? 6040)%float = true) l.
Proof.
  apply parse_forall. intros line e.
  destruct (parse_line_cases line) as [H | (mm & ss & ms & txt & H & Ht & Hs & Rm & Rs & Rv)];
    rewrite H; [discriminate|].
  intros [= <-]. cbn [text time]. split.
  - rewrite Hs. apply strip_trimmed. now rewrite <- Hs.
  - now apply total_seconds_below.
Qed.

(** ** A tag inside a line *)

Lemma lstrip_app_nonspace l c r :
  isspace c = false -> lstrip (l ++ c :: r) = (lstrip l ++ c :: r)%list.
Proof.
  intros H. induction l as [|a l IH]; cbn [app lstrip].
  - now rewrite H.
  - destruct (isspace a); [exact IH | reflexivity].
Qed.

Lemma match_here_other c s : c <> 91%N -> match_here (c :: s) = None.
Proof.
  intros H. unfold match_here.
  do 8 (destruct s as [|? s]; [reflexivity|]).
  apply N.eqb_neq in H. now rewrite H.
Qed.

Lemma search_skip l s : ~ In 91%N l -> search (l ++ s) = search s.
Proof.
  induction l as [|c l IH]; [reflexivity|]. intros H.
  cbn [app search]. rewrite match_here_other.
  - apply IH. intros Hin. apply H. now right.
  - intros ->. apply H. now left.
Qed.

(** X5.  The tag need not open the line: after a prefix that holds no
    opening bracket the first tag still gives the timestamp
    [MM*60 + SS + ms/1000], and the entry is appended when a text is left
    once the tags are removed. *)
Theorem tag_inside_line (pre : str) (m1 m2 s1 s2 : N) (frac txt : str)
  (a1 a2 b1 b2 : Z) (fvals : list Z) :
  ~ In 91%N pre ->
  decimal m1 = Some a1 -> decimal m2 = Some a2 ->
  decimal s1 = Some b1 -> decimal s2 = Some b2 ->
  Forall2 (fun c v => decimal c = Some v) frac fvals ->
  (List.length frac = 2 \/ List.length frac = 3)%nat ->
  let line := (pre ++ Spec.tagged_line m1 m2 s1 s2 frac txt)%list in
  parse_line line =
  Ok match strip (sub_empty (strip line)) with
     | [] => None
     | t => Some (mkLine (Spec.timestamp (10 * a1 + a2) (10 * b1 + b2)
                            (LrcParserProperties.millis_of fvals)) t)
     end.
Proof.
  intros Hpre Hm1 Hm2 Hs1 Hs2 Hf Hlen line.
  assert (Hstrip : strip line
                   = (lstrip pre
                      ++ ([91; m1; m2; 58; s1; s2; 46]%N ++ frac)
                      ++ 93%N :: rstrip txt)%list).
  { unfold line, Spec.tagged_line, strip. cbn [app].
    rewrite (lstrip_app_nonspace pre 91%N) by reflexivity.
    change (lstrip pre ++ 91 :: m1 :: m2 :: 58 :: s1 :: s2 :: 46 :: frac ++ 93 :: txt)%N%list
      with (lstrip pre ++ ([91; m1; m2; 58; s1; s2; 46]%N ++ frac) ++ 93%N :: txt)%list.
    rewrite app_assoc, rstrip_app_nonspace by reflexivity.
    now rewrite <- app_assoc. }
  assert (Hpre' : ~ In 91%N (lstrip pre)).
  { intros H. apply Hpre. now apply lstrip_incl. }
  unfold parse_line. fold line. rewrite Hstrip, (search_skip _ _ Hpre').
  pose proof (decimal_isdigit _ _ Hm1) as D1.
  pose proof (decimal_isdigit _ _ Hm2) as D2.
  pose proof (decimal_isdigit _ _ Hs1) as D3.
  pose proof (decimal_isdigit _ _ Hs2) as D4.
  destruct Hlen as [Hlen | Hlen].
  - destruct Hf as [|f1 v1 ? ? Hv1 Hf]; [discriminate|].
    destruct Hf as [|f2 v2 ? ? Hv2 Hf]; [discriminate|].
    destruct Hf; [|discriminate].
    pose proof (decimal_isdigit _ _ Hv1) as D5.
    pose proof (decimal_isdigit _ _ Hv2) as D6.
    cbn [app].
    rewrite (search_head _ _ _
               (match_here_two m1 m2 s1 s2 f1 f2 (rstrip txt)
                  ltac:(repeat constructor; assumption))).
    cbn [g_mm g_ss g_ms].
    rewrite (int_str_2 _ _ _ _ Hv1 Hv2), (int_str_2 _ _ _ _ Hm1 Hm2),
      (int_str_2 _ _ _ _ Hs1 Hs2).
    cbn [bind List.length Nat.eqb LrcParserProperties.millis_of].
    unfold Spec.timestamp, total_seconds.
    match goal with
    | |- context [strip (sub_empty ?x)] => now destruct (strip (sub_empty x))
    end.
  - destruct Hf as [|f1 v1 ? ? Hv1 Hf]; [discriminate|].
    destruct Hf as [|f2 v2 ? ? Hv2 Hf]; [discriminate|].
    destruct Hf as [|f3 v3 ? ? Hv3 Hf]; [discriminate|].
    destruct Hf; [|discriminate].
    pose proof (decimal_isdigit _ _ Hv1) as D5.
    pose proof (decimal_isdigit _ _ Hv2) as D6.
    pose proof (decimal_isdigit _ _ Hv3) as D7.
    cbn [app].
    rewrite (search_head _ _ _
               (match_here_three m1 m2 s1 s2 f1 f2 f3 (rstrip txt)
                  ltac:(repeat constructor; assumption))).
    cbn [g_mm g_ss g_ms].
    rewrite (int_str_3 _ _ _ _ _ _ Hv1 Hv2 Hv3), (int_str_2 _ _ _ _ Hm1 Hm2),
      (int_str_2 _ _ _ _ Hs1 Hs2).
    cbn [bind List.length Nat.eqb LrcParserProperties.millis_of].
    unfold Spec.timestamp, total_seconds.
    match goal with
    | |- context [strip (sub_empty ?x)] => now destruct (strip (sub_empty x))
    end.
Qed.

End WithDb.

Lemma parse_entries_trimmed_witness :
  exists l, @parse ascii_db disk song_path = Ok l /\
            Forall (fun e => trimmed (text e) /\ (time e <? 6040)%float = true) l.
Proof.
  eexists. split; [reflexivity|].
  exact (@parse_entries_trimmed ascii_db disk song_path _ eq_refl).
Defined.

Lemma tag_inside_line_witness :
  @parse_line ascii_db (lit "la la [01:02.50] la")
  = Ok (Some (mkLine 62.5 (lit "la la  la"))).
Proof.
  refine (@tag_inside_line ascii_db (lit "la la ") 48 49 48 50 [53; 48]%N (lit " la")
            0 1 0 2 [5; 0] _ _ _ _ _ _ _);
    try reflexivity; [ | repeat constructor | left; reflexivity].
  cbn. intros H. repeat (destruct H as [H | H]; [discriminate H|]). exact H.
Defined.

Lemma parse_readable_witness :
  exists l, @parse ascii_db disk song_path = Ok l /\ (List.length l <= 6)%nat.
Proof.
  destruct (@parse_readable ascii_db disk song_path song_text
              ltac:(discriminate) eq_refl) as (l & Hl & Hn).
  exists l. split; [exact Hl | exact Hn].
Defined.

Lemma untagged_line_ignored_witness :
  @parse_line ascii_db (lit "no tag") = Ok None.
Proof.
  refine (proj1 (@untagged_line_ignored ascii_db (lit "no tag") [] [] _)).
  cbn. intros H. repeat (destruct H as [H | H]; [discriminate H|]). exact H.
Defined.

End LrcParserExtras.

(* ------------------------------------------------------------------ *)
(** * Further properties of [FrameRenderer] *)
(* ------------------------------------------------------------------ *)

Module FrameRendererExtras.

Import LrcParser LrcParserFacts PIL FrameRenderer FloatOrderFacts.
Import FrameRendererProperties Notions Samples.

(** ** The active line *)

Lemma scan_lines_accepted t l : forall idx i,
  scan_lines idx i l t
  = match accepted t l with
    | O => idx
    | S k => i + Z.of_nat k
    end.
Proof.
  induction l as [|line rest IH]; intros idx i; cbn [scan_lines accepted];
    [reflexivity|].
  destruct (time line <=? t)%float; [|reflexivity].
  rewrite IH. destruct (accepted t rest); lia.
Qed.

Lemma accepted_le t l : (accepted t l <= List.length l)%nat.
Proof.
  induction l as [|line rest IH]; cbn [accepted List.length]; [lia|].
  destruct (time line <=? t)%float; lia.
Qed.

Lemma index_accepted lyrics t :
  get_current_line_index lyrics t = Z.of_nat (accepted t lyrics) - 1.
Proof.
  unfold get_current_line_index. rewrite scan_lines_accepted.
  destruct (accepted t lyrics); lia.
Qed.

Lemma index_below lyrics t :
  get_current_line_index lyrics t < Z.of_nat (List.length lyrics).
Proof. rewrite index_accepted. pose proof (accepted_le t lyrics). lia. Qed.

(** X6.  On any track, in order or not, [get_current_line_index] is one
    less than the number of leading entries at or before the query time:
    it lies between -1 and the last index. *)
Theorem current_line_counts_prefix (lyrics : list LyricLine) (t : float) :
  get_current_line_index lyrics t = Z.of_nat (accepted t lyrics) - 1 /\
  -1 <= get_current_line_index lyrics t < Z.of_nat (List.length lyrics).
Proof.
  rewrite index_accepted. pose proof (accepted_le t lyrics). lia.
Qed.

Lemma accepted_mono t1 t2 l :
  (t1 <=? t2)%float = true -> (accepted t1 l <= accepted t2 l)%nat.
Proof.
  intros H. induction l as [|line rest IH]; cbn [accepted]; [lia|].
  destruct (time line <=? t1)%float eqn:C; [|lia].
  rewrite (leb_trans _ _ _ C H). lia.
Qed.

(** X7.  The active line never goes back as time goes on: for query
    times [t1 <= t2] the index at [t1] is at most the index at [t2], on
    any track. *)
Theorem current_line_monotone (lyrics : list LyricLine) (t1 t2 : float) :
  (t1 <=? t2)%float = true ->
  get_current_line_index lyrics t1 <= get_current_line_index lyrics t2.
Proof.
  intros H.
  rewrite !index_accepted.
  pose proof (accepted_mono t1 t2 lyrics H). lia.
Qed.

Lemma current_line_monotone_witness :
  get_current_line_index track3 1 <= get_current_line_index track3 5.5.
Proof. apply (current_line_monotone track3 1 5.5). reflexivity. Defined.

(** X8.  The parser and the renderer fit together: on the track [parse]
    returns for any file, the active line at any query time is the
    greatest index whose timestamp is at most that time, and -1 when
    there is none. *)
Theorem parsed_track_active_line {db : UnicodeDb} (fs : str -> fs_entry)
  (file_path : str) (l : list LyricLine) (t : float) :
  parse fs file_path = Ok l ->
  Spec.greatest_index_upto l t (get_current_line_index l t).
Proof.
  intros H.
  destruct (LrcParserProperties.parse_inv _ _ _ H) as (a & -> & Fa & _).
  assert (Hs : Spec.ascending (sort a)).
  { apply sort_ascending. eapply Forall_impl; [|exact Fa]. now intros e [_ He]. }
  unfold Spec.greatest_index_upto, get_current_line_index.
  destruct (scan_lines_spec t (sort a) Hs (-1) 0) as [H1 H2]. split.
  - destruct H1 as [H1 | (line & Hn & Hi & Hl)]; [now left|].
    right. exists line. rewrite Z.sub_0_r in Hn. now repeat split.
  - intros j line Hn Hl. specialize (H2 j line Hn Hl). lia.
Qed.

Lemma parsed_track_active_line_witness :
  exists l, @parse ascii_db disk song_path = Ok l /\
            get_current_line_index l 2.5 = 2 /\
            Spec.greatest_index_upto l 2.5 2.
Proof.
  eexists. split; [reflexivity|]. split; [reflexivity|].
  exact (@parsed_track_active_line ascii_db disk song_path _ 2.5 eq_refl).
Defined.

Lemma last_default (r : list LyricLine) : forall y d d',
  last (y :: r) d = last (y :: r) d'.
Proof.
  induction r as [|x r IH]; intros y d d'; [reflexivity|].
  change (last (x :: r) d = last (x :: r) d'). apply IH.
Qed.

Lemma nth_error_last (l : list LyricLine) : forall d,
  nth_error (d :: l) (List.length l) = Some (last l d).
Proof.
  induction l as [|x r IH]; intros d; [reflexivity|].
  cbn [List.length nth_error]. rewrite IH. f_equal.
  destruct r as [|y r']; [reflexivity|].
  change (last (y :: r') x = last (y :: r') d). apply last_default.
Qed.

(** X9.  The two ends of a track: while the query time is before the
    timestamp of the first entry no line is active, and on a track in
    ascending order the last line is active from its timestamp on. *)
Theorem current_line_at_ends (first : LyricLine) (rest : list LyricLine) (t : float) :
  ((time first <=? t)%float = false ->
   get_current_line_index (first :: rest) t = -1) /\
  (Spec.ascending (first :: rest) ->
   (time (last rest first) <=? t)%float = true ->
   get_current_line_index (first :: rest) t = Z.of_nat (List.length rest)).
Proof.
  split.
  - intros H. unfold get_current_line_index. cbn [scan_lines]. now rewrite H.
  - intros Hs Hl.
    pose proof (index_below (first :: rest) t) as Hub.
    unfold get_current_line_index in *.
    destruct (scan_lines_spec t (first :: rest) Hs (-1) 0) as [_ H2].
    pose proof (nth_error_last rest first) as Hn.
    specialize (H2 _ _ Hn Hl). cbn [List.length] in Hub. lia.
Qed.

Lemma current_line_at_ends_witness :
  get_current_line_index track3 (-1) = -1 /\ get_current_line_index track3 9 = 2.
Proof.
  destruct (current_line_at_ends (mkLine 0 (lit "a"))
              [mkLine 2 (lit "b"); mkLine 5 (lit "c")] (-1)) as [W1 _].
  destruct (current_line_at_ends (mkLine 0 (lit "a"))
              [mkLine 2 (lit "b"); mkLine 5 (lit "c")] 9) as [_ W2].
  split; [apply W1; reflexivity|].
  apply W2; [unfold Spec.ascending; repeat constructor | reflexivity].
Defined.

(** ** The lines of a frame *)

Lemma neighbours_dist curr len n : forall i idx dist,
  0 <= i ->
  In (idx, dist) (neighbours curr len i n) ->
  idx = curr + dist /\ i <= Z.abs dist < i + Z.of_nat n.
Proof.
  induction n as [|n IH]; intros i idx dist Hi; cbn [neighbours]; [contradiction|].
  rewrite !in_app_iff. intros [H | [H | H]].
  - destruct (curr - i >=? 0); [|contradiction].
    destruct H as [[= <- <-] | []]. lia.
  - destruct (curr + i <? len); [|contradiction].
    destruct H as [[= <- <-] | []]. lia.
  - destruct (IH (i + 1) _ _ ltac:(lia) H) as [H1 H2]. lia.
Qed.

Lemma neighbours_length curr len n : forall i,
  (List.length (neighbours curr len i n) <= 2 * n)%nat.
Proof.
  induction n as [|n IH]; intros i; cbn [neighbours]; [cbn; lia|].
  rewrite !length_app. specialize (IH (i + 1)).
  destruct (curr - i >=? 0), (curr + i <? len); cbn [List.length]; lia.
Qed.

Lemma neighbours_nodup curr len n : forall i,
  0 < i -> NoDup (map snd (neighbours curr len i n)).
Proof.
  induction n as [|n IH]; intros i Hi; cbn [neighbours]; [constructor|].
  assert (Hout : forall d, Z.abs d = i -> ~ In d (map snd (neighbours curr len (i + 1) n))).
  { intros d Hd Hin. apply in_map_iff in Hin. destruct Hin as ([idx d'] & Hs & Hin).
    cbn in Hs. subst d'. apply neighbours_dist in Hin; lia. }
  specialize (IH (i + 1) ltac:(lia)).
  destruct (curr - i >=? 0), (curr + i <? len); cbn [app map snd].
  - constructor.
    + intros [H | H]; [lia|]. revert H. apply Hout. lia.
    + constructor; [apply Hout; lia | exact IH].
  - constructor; [apply Hout; lia | exact IH].
  - constructor; [apply Hout; lia | exact IH].
  - exact IH.
Qed.

Lemma render_list_nodup curr len v : NoDup (map snd (render_list curr len v)).
Proof.
  unfold render_list. cbn [map snd]. constructor; [|now apply neighbours_nodup].
  intros Hin. apply in_map_iff in Hin. destruct Hin as ([idx d] & Hs & Hin).
  cbn in Hs. subst d. apply neighbours_dist in Hin; lia.
Qed.

Lemma layout_inv prm lyrics idx dist j :
  layout prm lyrics (idx, dist) = Some j ->
  j_idx j = idx /\ j_dist j = dist /\ 0 <= idx < Z.of_nat (List.length lyrics) /\
  exists line, nth_error lyrics (Z.to_nat idx) = Some line /\ j_text j = text line.
Proof.
  unfold layout.
  destruct (idx <? 0) eqn:A; [discriminate|].
  destruct (idx >=? Z.of_nat (List.length lyrics)) eqn:B; [discriminate|]. cbn [orb].
  destruct (nth_error lyrics (Z.to_nat idx)) as [line|] eqn:N; [|discriminate].
  intros [= <-]. cbn [j_idx j_dist j_text]. repeat split; try lia.
  now exists line.
Qed.

Lemma filter_some_length {A B} (f : A -> option B) l :
  (List.length (filter_some f l) <= List.length l)%nat.
Proof.
  induction l as [|a r IH]; cbn [filter_some List.length]; [lia|].
  destruct (f a); cbn [List.length]; lia.
Qed.

Lemma layout_dists prm lyrics entries d :
  In d (map j_dist (filter_some (layout prm lyrics) entries)) -> In d (map snd entries).
Proof.
  intros H. apply in_map_iff in H. destruct H as (j & <- & Hj).
  apply in_filter_some in Hj. destruct Hj as ([idx dist] & Hin & Hl).
  apply layout_inv in Hl. destruct Hl as (_ & -> & _).
  apply in_map_iff. now exists (idx, dist).
Qed.

Lemma layout_nodup prm lyrics entries :
  NoDup (map snd entries) ->
  NoDup (map j_dist (filter_some (layout prm lyrics) entries)).
Proof.
  induction entries as [|[idx dist] r IH]; cbn [filter_some map snd]; [constructor|].
  intros H. inversion H as [|? ? Hn Hr]; subst.
  destruct (layout prm lyrics (idx, dist)) as [j|] eqn:L; [|now apply IH].
  cbn [map]. constructor; [|now apply IH].
  apply layout_inv in L. destruct L as (_ & -> & _).
  intros Hin. apply Hn. eapply layout_dists, Hin.
Qed.

Lemma nodup_shift (curr : Z) (l : list line_job) :
  (forall j, In j l -> j_idx j = curr + j_dist j) ->
  NoDup (map j_dist l) -> NoDup (map j_idx l).
Proof.
  induction l as [|j r IH]; cbn [map]; [constructor|].
  intros Hl H. inversion H as [|? ? Hn Hr]; subst.
  constructor.
  - intros Hin. apply Hn. apply in_map_iff in Hin. destruct Hin as (j' & E & Hj').
    apply in_map_iff. exists j'. split; [|exact Hj'].
    rewrite (Hl j (or_introl eq_refl)), (Hl j' (or_intror Hj')) in E. lia.
  - apply IH; [|exact Hr]. intros j' Hj'. apply Hl. now right.
Qed.

(** X10.  The lines of a frame are lines of the track: every line drawn
    has an index inside the track and the text of the entry at that
    index, its distance from the active line is at most
    [visible_lines // 2 + 1], and at most [2 * (visible_lines // 2 + 1) + 1]
    lines are drawn. *)
Theorem frame_lines_in_track (prm : params) (lyrics : list LyricLine) (t : float) :
  0 <= visible_lines prm ->
  (Z.of_nat (List.length (frame_jobs prm lyrics t))
   <= 2 * (visible_lines prm / 2 + 1) + 1) /\
  forall j, In j (frame_jobs prm lyrics t) ->
    0 <= j_idx j < Z.of_nat (List.length lyrics) /\
    Z.abs (j_dist j) <= visible_lines prm / 2 + 1 /\
    exists line, nth_error lyrics (Z.to_nat (j_idx j)) = Some line /\
                 j_text j = text line.
Proof.
  intros Hv.
  assert (Hd : 0 <= visible_lines prm / 2) by (apply Z.div_pos; lia).
  split.
  - unfold frame_jobs.
    pose proof (filter_some_length (layout prm lyrics)
                  (render_list (get_current_line_index lyrics t)
                     (Z.of_nat (List.length lyrics)) (visible_lines prm))) as L.
    unfold render_list in L at 2. cbn [List.length] in L.
    pose proof (neighbours_length (get_current_line_index lyrics t)
                  (Z.of_nat (List.length lyrics))
                  (Z.to_nat (visible_lines prm / 2 + 2 - 1)) 1). lia.
  - intros j Hj. unfold frame_jobs in Hj.
    apply in_filter_some in Hj. destruct Hj as ([idx dist] & Hin & Hl).
    apply layout_inv in Hl. destruct Hl as (-> & -> & Hb & Hline).
    split; [exact Hb|]. split; [|exact Hline].
    unfold render_list in Hin. destruct Hin as [[= _ <-] | Hin]; [lia|].
    apply neighbours_dist in Hin; lia.
Qed.

Lemma frame_lines_in_track_witness :
  (Z.of_nat (List.length (frame_jobs default_params track3 2.5)) <= 13) /\
  Forall (fun j => 0 <= j_idx j < 3) (frame_jobs default_params track3 2.5).
Proof.
  destruct (frame_lines_in_track default_params track3 2.5 ltac:(cbn; lia)) as [W1 W2].
  split; [exact W1|]. apply Forall_forall. intros j Hj. exact (proj1 (W2 j Hj)).
Defined.

(** X11.  No line is drawn twice in a frame: the lines of a frame have
    distinct indices and distinct distances. *)
Theorem frame_lines_distinct (prm : params) (lyrics : list LyricLine) (t : float) :
  NoDup (map j_idx (frame_jobs prm lyrics t)) /\
  NoDup (map j_dist (frame_jobs prm lyrics t)).
Proof.
  assert (H : NoDup (map j_dist (frame_jobs prm lyrics t))).
  { unfold frame_jobs. apply layout_nodup, render_list_nodup. }
  split; [|exact H].
  apply (nodup_shift (get_current_line_index lyrics t)); [|exact H].
  intros j Hj. now destruct (frame_job_inv _ _ _ _ Hj) as (line & Hi & _).
Qed.

(** ** The active line in a frame *)

Lemma active_scale (sd : float) :
  finite sd = true -> fmax 0.1 (1 - sd * float_of_Z (Z.abs 0))%float = 1%float.
Proof.
  intros F.
  assert (Z0 : exists s, Prim2SF (sd * float_of_Z (Z.abs 0))%float = S754_zero s).
  { rewrite mul_spec. change (Prim2SF (float_of_Z (Z.abs 0))) with (S754_zero false).
    unfold finite in F. destruct (Prim2SF sd) as [s| | |s m e]; try discriminate;
      cbn; eauto. }
  destruct Z0 as [s Hs].
  assert (E : (1 - sd * float_of_Z (Z.abs 0))%float = 1%float).
  { apply Prim2SF_inj. rewrite sub_spec, Hs. reflexivity. }
  rewrite E. reflexivity.
Qed.

(** X12.  When some line is active it is the first line drawn, at the
    middle of the scroll area, which starts at [40 + 4 * font_size] and
    ends 50 above the bottom of the frame, at full scale (for a scale
    decay that is a finite number), fully opaque and without blur, and no
    other line of the frame is at distance zero; when no line is active
    yet, every line drawn has a distance level of at least one. *)
Theorem active_line_drawn_first (prm : params) (lyrics : list LyricLine) (t : float) :
  finite (scale_decay prm) = true ->
  let c := get_current_line_index lyrics t in
  let top := 40 + font_size prm * 4 in
  (0 <= c ->
   exists line rest,
     nth_error lyrics (Z.to_nat c) = Some line /\
     frame_jobs prm lyrics t
     = mkJob c 0 (text line) 1 (PyInt 255) (PyInt 0)
         (top + (height prm - top - 50) / 2) :: rest /\
     Forall (fun j => j_dist j <> 0) rest) /\
  (c = -1 -> Forall (fun j => 1 <= j_dist j) (frame_jobs prm lyrics t)).
Proof.
  intros F c top. change (top + (height prm - top - 50) / 2) with (center_y prm).
  split.
  - intros Hc.
    pose proof (index_below lyrics t) as Hub. fold c in Hub.
    destruct (nth_error lyrics (Z.to_nat c)) as [line|] eqn:N.
    2:{ apply nth_error_None in N. lia. }
    exists line. unfold frame_jobs. fold c. unfold render_list. cbn [filter_some].
    assert (L : layout prm lyrics (c, 0)
                = Some (mkJob c 0 (text line) 1 (PyInt 255) (PyInt 0) (center_y prm))).
    { unfold layout.
      replace (c <? 0) with false by (symmetry; apply Z.ltb_ge; lia).
      replace (c >=? Z.of_nat (List.length lyrics)) with false
        by (symmetry; rewrite Z.geb_leb; apply Z.leb_gt; lia).
      cbn [orb]. rewrite N. cbn [Z.eqb]. rewrite (active_scale _ F).
      now rewrite Z.mul_0_l, Z.add_0_r. }
    rewrite L. eexists. split; [reflexivity|]. split; [reflexivity|].
    apply Forall_forall. intros j Hj.
    apply in_filter_some in Hj. destruct Hj as ([idx dist] & Hin & Hl).
    apply layout_inv in Hl. destruct Hl as (_ & -> & _).
    apply neighbours_dist in Hin; lia.
  - intros Hc. apply Forall_forall. intros j Hj.
    destruct (frame_job_inv _ _ _ _ Hj) as (line & Hi & _ & Hl & _).
    apply layout_inv in Hl. fold c in Hi. lia.
Qed.

Lemma active_line_drawn_first_witness :
  exists rest,
    frame_jobs default_params track3 2.5
    = mkJob 1 0 (lit "b") 1 (PyInt 255) (PyInt 0) 655 :: rest /\
    Forall (fun j => j_dist j <> 0) rest.
Proof.
  destruct (active_line_drawn_first default_params track3 2.5 eq_refl) as [W _].
  cbv zeta in W. destruct (W ltac:(discriminate)) as (line & rest & Hn & Hj & Hr).
  injection Hn as <-. exists rest. split; [exact Hj | exact Hr].
Defined.

End FrameRendererExtras.

(* ------------------------------------------------------------------ *)
(** * Further properties of the drawing *)
(* ------------------------------------------------------------------ *)

Module DrawingExtras.

Import LrcParser PIL FrameRenderer FrameRendererProperties FrameRendererExtras.
Import Notions Samples.

(** ** Pixels *)

Lemma nth_error_map_indexed f l : forall i k,
  nth_error (map_indexed f i l) k
  = option_map (f (i + Z.of_nat k)) (nth_error l k).
Proof.
  induction l as [|px r IH]; intros i k.
  - now destruct k.
  - destruct k as [|k]; cbn [map_indexed nth_error option_map].
    + now rewrite Z.add_0_r.
    + rewrite IH. f_equal. f_equal. lia.
Qed.

(** The pixel of an image after an in-place drawing. *)
Lemma pixel_at_pointwise f im x y :
  pixel_at (pointwise f im) x y = option_map (f x y) (pixel_at im x y).
Proof.
  unfold pixel_at, pointwise. cbn [im_width im_height im_data].
  destruct (0 <=? x) eqn:X0; [|reflexivity].
  destruct (x <? im_width im) eqn:X1; [|reflexivity].
  destruct (0 <=? y) eqn:Y0; [|reflexivity].
  destruct (y <? im_height im) eqn:Y1; [|reflexivity]. cbn [andb].
  apply Z.leb_le in X0, Y0. apply Z.ltb_lt in X1, Y1.
  rewrite nth_error_map_indexed.
  assert (Hk : 0 + Z.of_nat (Z.to_nat (y * im_width im + x)) = x + y * im_width im) by nia.
  rewrite Hk, Z.mod_add, Z.div_add, Z.mod_small, Z.div_small by lia.
  reflexivity.
Qed.

Section WithPillow.

Context {pil : Pillow}.

(** ** Layers *)

Lemma pointwise_solid f im : solid im -> solid (pointwise f im).
Proof.
  unfold solid, well_sized, pointwise. cbn. now rewrite map_indexed_length.
Qed.

Lemma tabulate_solid w h f : 0 < w -> 0 < h -> solid (tabulate w h f).
Proof.
  unfold solid, well_sized, tabulate. cbn. rewrite build_indexed_length. tauto.
Qed.

Lemma Image_new_solid w h c im :
  0 < w -> 0 < h -> Image_new w h c = Ok im ->
  solid im /\ im_width im = w /\ im_height im = h.
Proof.
  intros Hw Hh H. apply Image_new_size in H. destruct H as (H & _ & _).
  unfold size_of in H. injection H as H1 H2 H3.
  unfold solid, well_sized. rewrite H1, H2, H3. repeat split; lia.
Qed.

(** X13.  A layer [draw_text_with_effects] returns is never empty and
    holds the pixels of its size; it is placed with its vertical middle on
    [y] and, horizontally, from [x], around [x] or up to [x] by the
    alignment; at scale one it is the box of the text with a margin of 20
    pixels on every side. *)
Theorem layer_geometry (text : str) (x y : Z) (f : font) (color : rgb)
  (alpha : num) (scale : float) (blur_radius : num) (al : alignment)
  (sh : shadow_params) (st : stroke_params) (layer : Image) (dx dy : Z) :
  draw_text_with_effects text x y f color alpha scale blur_radius al sh st
  = Ok (Layer layer dx dy) ->
  solid layer /\
  dy = y - im_height layer / 2 /\
  dx = match al with
       | AlignLeft => x
       | AlignCenter => x - im_width layer / 2
       | AlignRight => x - im_width layer
       end /\
  ((scale =? 1)%float = true ->
   let '(b0, b1, b2, b3) := textbbox f text in
   im_width layer = b2 - b0 + 40 /\ im_height layer = b3 - b1 + 40).
Proof.
  unfold draw_text_with_effects.
  destruct (num_leb alpha (PyInt 5)); [discriminate|].
  destruct (py_int alpha) as [ialpha|e]; cbn [bind]; [|discriminate].
  destruct (textbbox f text) as [[[b0 b1] b2] b3].
  destruct ((b2 - b0 + 20 * 2 <=? 0) || (b3 - b1 + 20 * 2 <=? 0))%bool eqn:T;
    [discriminate|].
  apply orb_false_elim in T. destruct T as [Tw Th].
  apply Z.leb_gt in Tw, Th.
  destruct (Image_new _ _ _) as [im0|e] eqn:N; cbn [bind]; [|discriminate].
  destruct (Image_new_solid _ _ _ _ Tw Th N) as (S0 & W0 & H0).
  set (step1 := if sh_enabled sh then _ else _).
  assert (S1 : forall im1, step1 = Ok im1 ->
                 solid im1 /\ im_width im1 = b2 - b0 + 20 * 2
                 /\ im_height im1 = b3 - b1 + 20 * 2).
  { unfold step1. intros im1. destruct (sh_enabled sh).
    - destruct (py_int _) as [sa|e]; cbn [bind]; [|discriminate].
      intros [= <-]. split; [now apply pointwise_solid|]. now split.
    - intros [= <-]. now split. }
  destruct step1 as [im1|e]; cbn [bind]; [|discriminate].
  destruct (S1 im1 eq_refl) as (So1 & W1 & H1). clear S1.
  set (im2 := draw_text im1 _ _ _ _ _ _).
  assert (S2 : solid im2 /\ im_width im2 = b2 - b0 + 20 * 2
               /\ im_height im2 = b3 - b1 + 20 * 2).
  { unfold im2. split; [now apply pointwise_solid|]. now split. }
  destruct S2 as (So2 & W2 & H2).
  set (step3 := if negb (scale =? 1)%float then _ else _).
  assert (S3 : forall im3, step3 = Ok im3 ->
                 solid im3 /\
                 ((scale =? 1)%float = true ->
                  im_width im3 = b2 - b0 + 20 * 2 /\ im_height im3 = b3 - b1 + 20 * 2)).
  { unfold step3. intros im3. destruct (scale =? 1)%float; cbn [negb].
    - intros [= <-]. split; [exact So2|]. intros _. now split.
    - destruct (py_int _) as [nw|e]; cbn [bind]; [|discriminate].
      destruct (py_int _) as [nh|e]; cbn [bind]; [|discriminate].
      destruct (nw >? 0) eqn:A; cbn [andb].
      + destruct (nh >? 0) eqn:B.
        * intros [= <-]. split; [|discriminate].
          apply tabulate_solid; apply Z.gt_lt, Z.gtb_gt; assumption.
        * intros [= <-]. split; [exact So2|discriminate].
      + intros [= <-]. split; [exact So2|discriminate]. }
  destruct step3 as [im3|e]; cbn [bind]; [|discriminate].
  destruct (S3 im3 eq_refl) as (So3 & D3). clear S3.
  set (im4 := if num_ltb (PyInt 0) blur_radius then _ else _).
  assert (S4 : solid im4 /\ im_width im4 = im_width im3 /\ im_height im4 = im_height im3).
  { unfold im4. destruct (num_ltb (PyInt 0) blur_radius); [|now split].
    destruct So3 as (A & B & _). split; [now apply tabulate_solid|]. now split. }
  destruct S4 as (So4 & W4 & H4).
  intros [= <- <- <-]. split; [exact So4|]. split; [reflexivity|].
  split; [now destruct al|].
  intros Hs. rewrite W4, H4. destruct (D3 Hs) as [-> ->]. split; lia.
Qed.

(** The exceptions of [int] are not [TypeError]. *)
Lemma py_int_not_type n e : py_int n = Raise e -> e <> TypeError.
Proof.
  destruct n as [z|f]; cbn [py_int]; [discriminate|].
  unfold int_of_float. destruct (Prim2SF f); intros [= <-]; discriminate.
Qed.

(** X14.  The turn of the drawing loop for a line raises no [TypeError]
    when the box of its text, with the margin, is not empty: the bare
    [None] of [draw_text_with_effects] is reached only for a box that is
    at least 40 pixels narrower or lower than nothing. *)
Theorem composite_no_type_error (R : renderer) (img : Image) (j : line_job)
  (b0 b1 b2 b3 : Z) :
  textbbox (lyric_font R) (j_text j) = (b0, b1, b2, b3) ->
  0 < b2 - b0 + 40 -> 0 < b3 - b1 + 40 ->
  composite R img j <> Raise TypeError.
Proof.
  intros Hb Hw Hh. unfold composite, draw_text_with_effects.
  destruct (num_leb (j_alpha j) (PyInt 5)); [discriminate|].
  destruct (py_int (j_alpha j)) as [ialpha|e] eqn:A; cbn [bind].
  2:{ intros [= ->]. now apply py_int_not_type in A. }
  rewrite Hb.
  replace (b2 - b0 + 20 * 2 <=? 0) with false by (symmetry; apply Z.leb_gt; lia).
  replace (b3 - b1 + 20 * 2 <=? 0) with false by (symmetry; apply Z.leb_gt; lia).
  cbn [orb].
  destruct (Image_new _ _ _) as [im0|e] eqn:N; cbn [bind].
  2:{ unfold Image_new in N.
      destruct ((b2 - b0 + 20 * 2 <? 0) || (b3 - b1 + 20 * 2 <? 0))%bool;
        [|discriminate].
      injection N as <-. discriminate. }
  destruct (sh_enabled (shadow (p R))).
  - destruct (py_int (num_mul (j_alpha j) (PyFloat 0.6))) as [sa|e] eqn:S; cbn [bind].
    2:{ intros [= ->]. now apply py_int_not_type in S. }
    destruct (negb (j_scale j =? 1)%float); cbn [bind]; [|discriminate].
    destruct (py_int (num_mul (PyInt (b2 - b0 + 20 * 2)) (PyFloat (j_scale j))))
      as [nw|e] eqn:W; cbn [bind].
    2:{ intros [= ->]. now apply py_int_not_type in W. }
    destruct (py_int (num_mul (PyInt (b3 - b1 + 20 * 2)) (PyFloat (j_scale j))))
      as [nh|e] eqn:H; cbn [bind].
    2:{ intros [= ->]. now apply py_int_not_type in H. }
    destruct ((nw >? 0) && (nh >? 0))%bool; cbn [bind]; discriminate.
  - cbn [bind].
    destruct (negb (j_scale j =? 1)%float); cbn [bind]; [|discriminate].
    destruct (py_int (num_mul (PyInt (b2 - b0 + 20 * 2)) (PyFloat (j_scale j))))
      as [nw|e] eqn:W; cbn [bind].
    2:{ intros [= ->]. now apply py_int_not_type in W. }
    destruct (py_int (num_mul (PyInt (b3 - b1 + 20 * 2)) (PyFloat (j_scale j))))
      as [nh|e] eqn:H; cbn [bind].
    2:{ intros [= ->]. now apply py_int_not_type in H. }
    destruct ((nw >? 0) && (nh >? 0))%bool; cbn [bind]; discriminate.
Qed.

(** ** Compositing *)

(** X15.  A line changes only the pixels under its layer: after the turn
    of the drawing loop for a line, the frame has the size it had, and
    every pixel that the layer of the line does not cover has the value
    it had. *)
Theorem composite_local (R : renderer) (img img' : Image) (j : line_job) :
  composite R img j = Ok img' ->
  size_of img' = size_of img /\
  (img' = img \/
   exists layer dx dy,
     draw_text_with_effects (j_text j) (header_x (p R)) (j_y j) (lyric_font R)
       (font_color (p R)) (j_alpha j) (j_scale j) (j_blur j)
       (align (p R)) (shadow (p R)) (stroke (p R)) = Ok (Layer layer dx dy) /\
     forall x y, pixel_at layer (x - dx) (y - dy) = None ->
                 pixel_at img' x y = pixel_at img x y).
Proof.
  intros H. split; [eapply composite_size, H|].
  unfold composite in H.
  destruct (draw_text_with_effects _ _ _ _ _ _ _ _ _ _ _) as [[| |layer dx dy]|e];
    cbn [bind] in H; try discriminate.
  - left. now injection H as <-.
  - right. exists layer, dx, dy. split; [reflexivity|].
    injection H as <-. intros x y Hout. unfold paste.
    rewrite pixel_at_pointwise, Hout. now destruct (pixel_at img x y).
Qed.

(** ** An empty track *)

Lemma neighbours_empty n : forall i, 0 < i -> neighbours (-1) 0 i n = [].
Proof.
  induction n as [|n IH]; intros i Hi; cbn [neighbours]; [reflexivity|].
  replace (-1 - i >=? 0) with false by (symmetry; rewrite Z.geb_leb; apply Z.leb_gt; lia).
  replace (-1 + i <? 0) with false by (symmetry; apply Z.ltb_ge; lia).
  cbn [app]. apply IH. lia.
Qed.

Lemma pixel_at_blank w h c x y :
  0 <= x < w -> 0 <= y < h ->
  pixel_at (mkImage w h (repeat c (Z.to_nat (w * h)))) x y = Some c.
Proof.
  intros Hx Hy. unfold pixel_at. cbn [im_width im_height im_data].
  replace (0 <=? x) with true by (symmetry; apply Z.leb_le; lia).
  replace (x <? w) with true by (symmetry; apply Z.ltb_lt; lia).
  replace (0 <=? y) with true by (symmetry; apply Z.leb_le; lia).
  replace (y <? h) with true by (symmetry; apply Z.ltb_lt; lia).
  cbn [andb]. apply nth_error_repeat. nia.
Qed.

(** X16.  Without lyrics a frame is the header alone, at every time.  When
    the title or the [artist - album] line holds a newline the header
    cannot be measured and [render] raises [ValueError].  Otherwise, for a
    width and a height that are not negative, the frame has the size of
    the canvas and every pixel of it is the transparent pixel inked by the
    title, drawn at height 40 in the title font with alpha 255, and then
    by the [artist - album] line, drawn at height [40 + 2 * font_size] in
    the info font with alpha 200; each text starts where the alignment
    puts it: half its length before the middle of the width, at 50, or its
    length before [width - 50]. *)
Theorem render_empty_track (R : renderer) (t : float) :
  lyrics R = [] -> 0 <= width (p R) -> 0 <= height (p R) ->
  let prm := p R in
  let title := meta_title prm in
  let info := (meta_artist prm ++ lit " - " ++ meta_album prm)%list in
  let start (w : float) : num :=
    match align prm with
    | AlignCenter => num_sub (PyInt (width prm / 2)) (PyFloat (floordiv2 w))
    | AlignLeft => PyInt 50
    | AlignRight => num_sub (PyInt (width prm - 50)) (PyFloat w)
    end in
  if (existsb (N.eqb 10) title || existsb (N.eqb 10) info)%bool
  then render R t = Raise ValueError
  else
    exists img,
      render R t = Ok img /\
      size_of img = (width prm, height prm, Z.to_nat (width prm * height prm)) /\
      forall x y, 0 <= x < width prm -> 0 <= y < height prm ->
        pixel_at img x y
        = Some (text_ink (start (textlength (meta_info_font R) info),
                          PyInt (40 + font_size prm * 2))
                  info (meta_info_font R) (with_alpha (font_color prm) 200) 0 None x y
                  (text_ink (start (textlength (meta_title_font R) title), PyInt 40)
                     title (meta_title_font R) (with_alpha (font_color prm) 255) 0 None
                     x y (0, 0, 0, 0))).
Proof.
  intros Hl Hw Hh. cbv zeta. unfold render, Image_new.
  replace (width (p R) <? 0) with false by (symmetry; apply Z.ltb_ge; lia).
  replace (height (p R) <? 0) with false by (symmetry; apply Z.ltb_ge; lia).
  cbn [orb bind]. unfold draw_header, text_length, info_text.
  destruct (existsb (N.eqb 10) (meta_title (p R))); cbn [orb bind]; [reflexivity|].
  destruct (existsb (N.eqb 10) _); cbn [bind]; [reflexivity|].
  unfold frame_jobs. rewrite Hl.
  unfold get_current_line_index, render_list. cbn [scan_lines List.length Z.of_nat].
  rewrite neighbours_empty by lia. cbn [filter_some layout Z.ltb Z.compare orb composite_all].
  eexists. split; [reflexivity|]. split.
  - rewrite !draw_text_size. unfold size_of. cbn [im_width im_height im_data].
    now rewrite repeat_length.
  - intros x y Hx Hy. unfold draw_text. rewrite !pixel_at_pointwise.
    rewrite pixel_at_blank by lia. cbn [option_map].
    unfold header_anchor, header_x, margin_top. now destruct (align (p R)).
Qed.

(** ** The fonts *)

(** X17.  The fonts of a renderer are all of the chosen font file or all
    the default font: when one of the three sizes fails to load, none of
    the other two is kept; and the renderer holds the parameters and the
    track it was made with. *)
Theorem init_fonts (prm : params) (lrc : list LyricLine) :
  p (init prm lrc) = prm /\ lyrics (init prm lrc) = lrc /\
  ((lyric_font (init prm lrc) = load_default /\
    meta_title_font (init prm lrc) = load_default /\
    meta_info_font (init prm lrc) = load_default) \/
   (exists s2 s3,
      int_of_float (float_of_Z (font_size prm) * 1.5)%float = Ok s2 /\
      int_of_float (float_of_Z (font_size prm) * 0.8)%float = Ok s3 /\
      truetype (font_path prm) (font_size prm) = Some (lyric_font (init prm lrc)) /\
      truetype (font_path prm) s2 = Some (meta_title_font (init prm lrc)) /\
      truetype (font_path prm) s3 = Some (meta_info_font (init prm lrc)))).
Proof.
  unfold init.
  destruct (truetype (font_path prm) (font_size prm)) as [f1|] eqn:T1;
    [|now repeat split; left].
  destruct (int_of_float (float_of_Z (font_size prm) * 1.5)%float) as [s2|] eqn:I2;
    [|now repeat split; left].
  destruct (truetype (font_path prm) s2) as [f2|] eqn:T2; [|now repeat split; left].
  destruct (int_of_float (float_of_Z (font_size prm) * 0.8)%float) as [s3|] eqn:I3;
    [|now repeat split; left].
  destruct (truetype (font_path prm) s3) as [f3|] eqn:T3; [|now repeat split; left].
  cbn. repeat split. right. exists s2, s3. now repeat split.
Qed.

End WithPillow.

Lemma layer_geometry_witness :
  exists layer,
    @draw_text_with_effects box_pillow (lit "b") 2 47 1 (255, 255, 255) (PyInt 255) 1
      (PyInt 0) AlignCenter (mkShadow true (0, 0, 0) 1 1) (mkStroke false (0, 0, 0) 2)
    = Ok (Layer layer (-18) 27) /\
    im_width layer = 41 /\ im_height layer = 41.
Proof.
  eexists. split; [vm_compute; reflexivity|].
  match goal with
  | |- im_width ?l = _ /\ _ =>
      destruct (@layer_geometry box_pillow (lit "b") 2 47 1 (255, 255, 255) (PyInt 255)
                  1 (PyInt 0) AlignCenter (mkShadow true (0, 0, 0) 1 1)
                  (mkStroke false (0, 0, 0) 2) l (-18) 27 ltac:(vm_compute; reflexivity))
        as (_ & _ & _ & W)
  end.
  exact (W eq_refl).
Defined.

Lemma composite_no_type_error_witness :
  @composite box_pillow (init small_params track3) (mkImage 1 1 [(0, 0, 0, 0)])
    (mkJob 1 0 (lit "b") 1 (PyInt 255) (PyInt 0) 47) <> Raise TypeError.
Proof.
  apply (@composite_no_type_error box_pillow (init small_params track3)
           (mkImage 1 1 [(0, 0, 0, 0)])
           (mkJob 1 0 (lit "b") 1 (PyInt 255) (PyInt 0) 47) 0 0 1 1);
    [reflexivity | lia | lia].
Defined.

Lemma composite_local_witness :
  exists img',
    @composite box_pillow (init small_params track3)
      (mkImage 4 100 (repeat (0, 0, 0, 0) 400))
      (mkJob 1 0 (lit "b") 1 (PyInt 255) (PyInt 0) 47) = Ok img' /\
    size_of img' = (4, 100, 400%nat).
Proof.
  eexists. split; [vm_compute; reflexivity|].
  match goal with
  | |- size_of ?i = _ =>
      exact (proj1 (@composite_local box_pillow (init small_params track3)
                      (mkImage 4 100 (repeat (0, 0, 0, 0) 400)) i
                      (mkJob 1 0 (lit "b") 1 (PyInt 255) (PyInt 0) 47)
                      ltac:(vm_compute; reflexivity)))
  end.
Defined.

Lemma render_empty_track_witness :
  exists img,
    @render box_pillow (init small_params []) 0 = Ok img /\
    size_of img = (4, 100, Z.to_nat (4 * 100)).
Proof.
  pose proof (@render_empty_track box_pillow (init small_params []) 0 eq_refl
                ltac:(vm_compute; discriminate) ltac:(vm_compute; discriminate)) as W.
  cbv zeta in W.
  destruct (existsb (N.eqb 10) (meta_title (p (init small_params []))) ||
            existsb (N.eqb 10)
              (meta_artist (p (init small_params [])) ++ lit " - "
               ++ meta_album (p (init small_params []))))%bool eqn:C.
  - exfalso. revert C. vm_compute. discriminate.
  - destruct W as (img & W1 & W2 & _). exists img. split; [exact W1 | exact W2].
Defined.

End DrawingExtras.

(* ------------------------------------------------------------------ *)
(** * Further properties of [ExportThread.run] *)
(* ------------------------------------------------------------------ *)

Module ExportThreadExtras.

Import LrcParser PIL FrameRenderer ExportThread.
Import FrameRendererProperties ExportThreadProperties Notions Samples.

Section WithPillow.

Context {pil : Pillow}.

Lemma progress_stream total i evs :
  progress total i = Ok evs ->
  forallb is_stream evs = true /\
  evs = (if reported i then filter is_progress evs else []) /\
  List.length (filter is_progress evs) = if reported i then 1%nat else 0%nat.
Proof.
  unfold progress, reported. destruct (Z.of_nat i mod 10 =? 0).
  - destruct (py_int _) as [v|e]; cbn [bind]; [|discriminate].
    now intros [= <-].
  - now intros [= <-].
Qed.

(** ** The shape of a run *)

Lemma frames_shape R E total n : forall i is_running,
  exists body tail,
    frames R E total n i is_running = (body ++ tail)%list /\
    forallb is_stream body = true /\
    (tail = [CloseStdin; Wait; Finished] \/
     tail = [CloseStdin; Wait; Error FfmpegFailed] \/
     tail = [CloseStdin; Wait] \/
     exists e, tail = [Error (Exc e)]).
Proof.
  induction n as [|n IH]; intros i is_running; cbn [frames].
  - exists []. eexists. split; [reflexivity|]. split; [reflexivity|].
    destruct (negb (returncode E =? 0)); tauto.
  - destruct (negb (if stop_called E i then stop is_running else is_running)).
    + exists [], [CloseStdin; Wait]. tauto.
    + destruct (render R (frame_time i)) as [img|e].
      2:{ exists [], [Error (Exc e)]. repeat split. right. right. right. now exists e. }
      destruct (progress total i) as [evs|e] eqn:P.
      2:{ exists [Write (tobytes img)], [Error (Exc e)]. repeat split.
          right. right. right. now exists e. }
      destruct (IH (S i) (if stop_called E i then stop is_running else is_running))
        as (body & tail & -> & Hb & Ht).
      exists (Write (tobytes img) :: evs ++ body)%list, tail.
      split; [cbn [app]; now rewrite <- app_assoc|]. split; [|exact Ht].
      cbn [forallb is_stream andb]. rewrite forallb_app, Hb.
      now destruct (progress_stream _ _ _ P) as [-> _].
Qed.

(** X18.  Every run has one shape, whatever the parameters, the track and
    the calls of [stop]: either the frame count cannot be computed and the
    run is a single error notification, or the encoder is started first,
    then come only frames written and progress reported, and the run ends
    in one of four ways: the pipe closed and waited for and the completion
    notified, the same with the error of the encoder, the pipe closed and
    waited for without a notification, or the notification of an
    exception with the pipe left open. *)
Theorem run_shape (prm : params) (lrc : list LyricLine) (output_path : str) (E : env) :
  (exists e, total_frames prm = Raise e /\
             run prm lrc output_path E = [Error (Exc e)]) \/
  exists body tail,
    run prm lrc output_path E
    = (Popen (width prm) (height prm) 30 (bitrate prm) output_path :: body ++ tail)%list /\
    forallb is_stream body = true /\
    (tail = [CloseStdin; Wait; Finished] \/
     tail = [CloseStdin; Wait; Error FfmpegFailed] \/
     tail = [CloseStdin; Wait] \/
     exists e, tail = [Error (Exc e)]).
Proof.
  unfold run. destruct (total_frames prm) as [n|e]; [right|left; now exists e].
  destruct (frames_shape (init prm lrc) E n (Z.to_nat n) 0 true)
    as (body & tail & -> & Hb & Ht).
  now exists body, tail.
Qed.

Lemma stream_no_notification body :
  forallb is_stream body = true -> notifications body = [].
Proof.
  unfold notifications. induction body as [|e r IH]; [reflexivity|].
  cbn [forallb filter]. intros H. apply andb_prop in H. destruct H as [He Hr].
  destruct e; try discriminate; cbn; now apply IH.
Qed.

(** X19.  A run notifies its end at most once, and by its last event: the
    trace holds no completion and no error notification, or exactly one,
    at its very end. *)
Theorem run_notifies_once (prm : params) (lrc : list LyricLine) (output_path : str)
  (E : env) :
  let tr := run prm lrc output_path E in
  notifications tr = [] \/
  exists before e,
    tr = (before ++ [e])%list /\ notifications before = [] /\
    notifications tr = [e].
Proof.
  cbv zeta.
  unfold run. destruct (total_frames prm) as [n|e].
  2:{ right. exists [], (Error (Exc e)). now repeat split. }
  destruct (frames_shape (init prm lrc) E n (Z.to_nat n) 0 true)
    as (body & tail & -> & Hb & Ht).
  - pose proof (stream_no_notification body Hb) as Nb.
    unfold notifications in *. cbn [filter is_notification].
    destruct Ht as [-> | [-> | [-> | (e & ->)]]]; rewrite filter_app, Nb; cbn.
    + right. exists (Popen (width prm) (height prm) 30 (bitrate prm) output_path
                     :: body ++ [CloseStdin; Wait])%list, Finished.
      cbn [app filter is_notification]. rewrite <- app_assoc, filter_app, Nb.
      now repeat split.
    + right. exists (Popen (width prm) (height prm) 30 (bitrate prm) output_path
                     :: body ++ [CloseStdin; Wait])%list, (Error FfmpegFailed).
      cbn [app filter is_notification]. rewrite <- app_assoc, filter_app, Nb.
      now repeat split.
    + now left.
    + right. exists (Popen (width prm) (height prm) 30 (bitrate prm) output_path
                     :: body)%list, (Error (Exc e)).
      cbn [app filter is_notification]. rewrite Nb. now repeat split.
Qed.

(** ** A run that reaches its end *)

Lemma frames_completed R E total n : forall i,
  (forall k, stop_called E k = false) ->
  (forall k, (i <= k < i + n)%nat -> frame_ok R total k = true) ->
  exists body,
    frames R E total n i true
    = (body ++ [CloseStdin; Wait;
                if negb (returncode E =? 0) then Error FfmpegFailed else Finished])%list /\
    forallb is_stream body = true /\
    List.length (filter is_progress body) = List.length (filter reported (seq i n)).
Proof.
  induction n as [|n IH]; intros i Hs Hok; cbn [frames].
  - exists []. now repeat split.
  - rewrite Hs. cbn [negb].
    destruct (frame_ok_inv R total i (Hok i ltac:(lia))) as (img & evs & Hr & Hp).
    rewrite Hr, Hp.
    destruct (IH (S i) Hs ltac:(intros k Hk; apply Hok; lia)) as (body & -> & Hb & Hc).
    destruct (progress_stream _ _ _ Hp) as (Hst & _ & Hn).
    exists (Write (tobytes img) :: evs ++ body)%list.
    split; [cbn [app]; now rewrite <- app_assoc|]. split.
    + cbn [forallb is_stream andb]. now rewrite forallb_app, Hst, Hb.
    + cbn [filter is_progress seq]. rewrite filter_app, length_app, Hn, Hc.
      destruct (reported i); reflexivity.
Qed.

Lemma reported_count n :
  Z.of_nat (List.length (filter reported (seq 0 n))) = (Z.of_nat n + 9) / 10.
Proof.
  induction n as [|n IH]; [reflexivity|].
  rewrite seq_S, filter_app, length_app, Nat2Z.inj_add, IH. cbn [Nat.add filter].
  unfold reported. destruct (Z.of_nat n mod 10 =? 0) eqn:M; cbn [List.length].
  - apply Z.eqb_eq in M. Z.div_mod_to_equations. lia.
  - apply Z.eqb_neq in M. Z.div_mod_to_equations. lia.
Qed.

(** X20.  A run that is not cancelled and in which no frame raises closes
    the pipe, waits for the encoder and then notifies exactly one thing:
    the completion when the encoder returned zero, the encoder error
    otherwise; along the way it reports the progress once for every tenth
    frame, [(n + 9) // 10] times for [n] frames. *)
Theorem run_completed (prm : params) (lrc : list LyricLine) (output_path : str)
  (E : env) (n : Z) :
  total_frames prm = Ok n ->
  (forall i, stop_called E i = false) ->
  forallb (frame_ok (init prm lrc) n) (seq 0 (Z.to_nat n)) = true ->
  exists body,
    run prm lrc output_path E
    = (Popen (width prm) (height prm) 30 (bitrate prm) output_path :: body
       ++ [CloseStdin; Wait;
           if returncode E =? 0 then Finished else Error FfmpegFailed])%list /\
    forallb is_stream body = true /\
    Z.of_nat (List.length (filter is_progress body)) = (Z.max 0 n + 9) / 10.
Proof.
  intros Ht Hs Hok. rewrite forallb_forall in Hok.
  destruct (frames_completed (init prm lrc) E n (Z.to_nat n) 0 Hs) as (body & Hf & Hb & Hc).
  { intros k Hk. apply Hok, in_seq. lia. }
  exists body. unfold run. rewrite Ht, Hf. split.
  - now destruct (returncode E =? 0).
  - split; [exact Hb|]. rewrite Hc, reported_count. f_equal. lia.
Qed.

(** ** A run that raises *)

Lemma frames_raise R E total e k n : forall i,
  (i <= k < i + n)%nat ->
  (forall m, (m <= k)%nat -> stop_called E m = false) ->
  (forall m, (i <= m < k)%nat -> frame_ok R total m = true) ->
  render R (frame_time k) = Raise e ->
  exists body,
    frames R E total n i true = (body ++ [Error (Exc e)])%list /\
    forallb is_stream body = true /\
    List.length (writes body) = (k - i)%nat.
Proof.
  induction n as [|n IH]; intros i Hk Hs Hok Hr; [lia|].
  cbn [frames]. rewrite Hs by lia. cbn [negb].
  destruct (Nat.eq_dec i k) as [->|Hne].
  - rewrite Hr. exists []. repeat split. cbn. lia.
  - destruct (frame_ok_inv R total i (Hok i ltac:(lia))) as (img & evs & Hri & Hp).
    rewrite Hri, Hp.
    destruct (IH (S i) ltac:(lia) Hs ltac:(intros m Hm; apply Hok; lia) Hr)
      as (body & -> & Hb & Hw).
    destruct (progress_stream _ _ _ Hp) as (Hst & _ & _).
    destruct (progress_events _ _ _ Hp) as [Hwe _].
    exists (Write (tobytes img) :: evs ++ body)%list.
    split; [cbn [app]; now rewrite <- app_assoc|]. split.
    + cbn [forallb is_stream andb]. now rewrite forallb_app, Hst, Hb.
    + cbn [writes List.length]. rewrite writes_app, Hwe. cbn [app]. lia.
Qed.

(** X21.  When the rendering of frame [k] raises, the frames before it
    have been written, the exception is notified as an error, and the
    run stops there: the pipe of the encoder is neither closed nor waited
    for. *)
Theorem run_raises (prm : params) (lrc : list LyricLine) (output_path : str)
  (E : env) (n : Z) (k : nat) (e : exn) :
  total_frames prm = Ok n ->
  Z.of_nat k < n ->
  (forall m, (m <= k)%nat -> stop_called E m = false) ->
  forallb (frame_ok (init prm lrc) n) (seq 0 k) = true ->
  render (init prm lrc) (frame_time k) = Raise e ->
  let tr := run prm lrc output_path E in
  List.length (writes tr) = k /\
  notifications tr = [Error (Exc e)] /\
  forallb (fun ev => negb (is_pipe_end ev)) tr = true.
Proof.
  intros Ht Hk Hs Hok Hr tr. rewrite forallb_forall in Hok.
  destruct (frames_raise (init prm lrc) E n e k (Z.to_nat n) 0 ltac:(lia) Hs) as
    (body & Hf & Hb & Hw); [|exact Hr|].
  { intros m Hm. apply Hok, in_seq. lia. }
  unfold tr, run. rewrite Ht, Hf. repeat split.
  - cbn [writes]. rewrite writes_app. cbn [writes]. rewrite app_nil_r. lia.
  - unfold notifications. cbn [filter is_notification].
    rewrite filter_app. fold (notifications body).
    now rewrite (stream_no_notification body Hb).
  - cbn [forallb is_pipe_end negb andb]. rewrite forallb_app. cbn.
    rewrite andb_true_r. clear -Hb. induction body as [|ev r IH]; [reflexivity|].
    cbn [forallb] in *. apply andb_prop in Hb. destruct Hb as [H1 H2].
    rewrite (IH H2). now destruct ev.
Qed.

(** ** Cancelling and the frames written *)

Lemma frames_prefix R E E' total n : forall i is_running,
  (forall k, stop_called E' k = false) ->
  exists rest,
    writes (frames R E' total n i true)
    = (writes (frames R E total n i is_running) ++ rest)%list.
Proof.
  induction n as [|n IH]; intros i is_running Hs; cbn [frames].
  - exists []. now destruct (negb (returncode E =? 0)), (negb (returncode E' =? 0)).
  - rewrite Hs. cbn [negb].
    destruct (negb (if stop_called E i then stop is_running else is_running)).
    + cbn [writes app]. eexists. reflexivity.
    + destruct (render R (frame_time i)) as [img|e]; [|now exists []].
      destruct (progress total i) as [evs|e]; [|now exists []].
      destruct (IH (S i) (if stop_called E i then stop is_running else is_running) Hs)
        as (rest & Hrest).
      exists rest. cbn [writes]. rewrite !writes_app, Hrest.
      cbn [app]. now rewrite <- app_assoc.
Qed.

(** X22.  Cancelling changes nothing of what was written: the frames
    written by a run, cancelled or not, are the first frames, in order, of
    the run of the same export in which [stop] is never called. *)
Theorem cancel_writes_prefix (prm : params) (lrc : list LyricLine) (output_path : str)
  (E E' : env) :
  (forall k, stop_called E' k = false) ->
  exists rest,
    writes (run prm lrc output_path E')
    = (writes (run prm lrc output_path E) ++ rest)%list.
Proof.
  intros Hs. unfold run. destruct (total_frames prm) as [n|e]; [|now exists []].
  cbn [writes]. apply frames_prefix, Hs.
Qed.

(** ** Durations at the edge *)

(** X23.  A duration that is a NaN or an infinity starts no encoder: the
    run is the single error notification of the exception [int] raises. *)
Theorem run_duration_not_finite (prm : params) (lrc : list LyricLine)
  (output_path : str) (E : env) (f : float) :
  duration prm = PyFloat f -> finite f = false ->
  exists e, run prm lrc output_path E = [Error (Exc e)] /\
            (e = ValueError \/ e = OverflowError).
Proof.
  intros Hd Hf. unfold run, total_frames. rewrite Hd.
  cbn [num_mul to_float py_int]. unfold int_of_float. rewrite mul_spec.
  change (Prim2SF (float_of_Z fps)) with (S754_finite false 8444249301319680 (-48)).
  unfold finite in Hf.
  destruct (Prim2SF f) as [s|s| |s m e]; try discriminate; cbn; eauto.
Qed.

(** X24.  A duration of zero seconds or less, as a whole number, writes
    no frame: the encoder is started, its pipe is closed at once, and the
    run notifies the completion or the encoder error by the return code. *)
Theorem run_duration_not_positive (prm : params) (lrc : list LyricLine)
  (output_path : str) (E : env) (D : Z) :
  duration prm = PyInt D -> D <= 0 ->
  run prm lrc output_path E
  = [Popen (width prm) (height prm) 30 (bitrate prm) output_path; CloseStdin; Wait;
     if returncode E =? 0 then Finished else Error FfmpegFailed].
Proof.
  intros Hd HD. unfold run, total_frames. rewrite Hd. cbn [num_mul py_int].
  replace (Z.to_nat (D * fps)) with O by (unfold fps; lia).
  cbn [frames]. now destruct (returncode E =? 0).
Qed.

End WithPillow.

Lemma run_completed_witness :
  exists body,
    @run box_pillow small_params track3 (lit "out.mov") quiet
    = (Popen 4 100 30 (lit "20M") (lit "out.mov") :: body
       ++ [CloseStdin; Wait; Finished])%list /\
    List.length (filter is_progress body) = 3%nat.
Proof.
  assert (Hs : forall i, stop_called quiet i = false) by reflexivity.
  assert (Hok : forallb (frame_ok (init small_params track3) 30)
                        (seq 0 (Z.to_nat 30)) = true).
  { vm_compute. reflexivity. }
  destruct (@run_completed box_pillow small_params track3 (lit "out.mov") quiet 30
              eq_refl Hs Hok) as (body & Hr & _ & Hc).
  exists body. split; [exact Hr|]. apply Nat2Z.inj. rewrite Hc. reflexivity.
Defined.

Lemma run_raises_witness :
  notifications (@run box_pillow broken_params track3 (lit "out.mov") quiet)
  = [Error (Exc ValueError)] /\
  writes (@run box_pillow broken_params track3 (lit "out.mov") quiet) = [].
Proof.
  destruct (@run_raises box_pillow broken_params track3 (lit "out.mov") quiet 30 0
              ValueError eq_refl eq_refl (fun _ _ => eq_refl) eq_refl eq_refl)
    as (W1 & W2 & _).
  split; [exact W2|].
  destruct (writes (@run box_pillow broken_params track3 (lit "out.mov") quiet));
    [reflexivity | discriminate W1].
Defined.

Lemma cancel_writes_prefix_witness :
  exists rest,
    writes (@run box_pillow small_params track3 (lit "out.mov") quiet)
    = (writes (@run box_pillow small_params track3 (lit "out.mov") stopped_at_3)
       ++ rest)%list.
Proof.
  apply (@cancel_writes_prefix box_pillow small_params track3 (lit "out.mov")
           stopped_at_3 quiet).
  reflexivity.
Defined.

Lemma run_duration_not_finite_witness :
  exists e,
    @run box_pillow (with_duration small_params (PyFloat infinity)) track3
      (lit "out.mov") quiet = [Error (Exc e)].
Proof.
  destruct (@run_duration_not_finite box_pillow
              (with_duration small_params (PyFloat infinity)) track3
              (lit "out.mov") quiet infinity eq_refl eq_refl) as (e & He & _).
  now exists e.
Defined.

Lemma run_duration_not_positive_witness :
  @run box_pillow (with_duration small_params (PyInt 0)) track3 (lit "out.mov") quiet
  = [Popen 4 100 30 (lit "20M") (lit "out.mov"); CloseStdin; Wait; Finished].
Proof.
  apply (@run_duration_not_positive box_pillow
           (with_duration small_params (PyInt 0)) track3 (lit "out.mov") quiet 0);
    [reflexivity | lia].
Defined.

End ExportThreadExtras.

(* ------------------------------------------------------------------ *)
(** * Properties of [get_ffmpeg_path] and of the preview *)
(* ------------------------------------------------------------------ *)

Module WindowExtras.

Import LrcParser PIL FrameRenderer FrameRendererProperties ExportThreadProperties.
Import Launcher MainWindow Notions Samples.
Import FloatOrder FloatOrderFacts LrcParserFacts.

(** X25.  The path [get_ffmpeg_path] returns exists, unless it is the
    bare command [ffmpeg] left to the search path: the encoder beside the
    program is taken when it exists, else the one in the working
    directory when it exists, and the bare command only when both are
    missing. *)
Theorem ffmpeg_path_exists (H : host) :
  let base := if frozen H then meipass H else script_dir H in
  let beside := path_join H base (lit "ffmpeg.exe") in
  let r := snd (get_ffmpeg_path H) in
  (path_exists H beside = true -> r = beside) /\
  (path_exists H beside = false -> path_exists H (lit "ffmpeg.exe") = true ->
   r = lit "ffmpeg.exe") /\
  (path_exists H beside = false -> path_exists H (lit "ffmpeg.exe") = false ->
   r = lit "ffmpeg") /\
  (r = lit "ffmpeg" \/ path_exists H r = true).
Proof.
  cbv zeta. unfold get_ffmpeg_path.
  destruct (path_exists H (path_join H (if frozen H then meipass H else script_dir H)
                             (lit "ffmpeg.exe"))) eqn:B; cbn [negb snd].
  - repeat split; try discriminate. now right.
  - destruct (path_exists H (lit "ffmpeg.exe")) eqn:C; cbn [snd].
    + repeat split; try discriminate. now right.
    + repeat split; try discriminate. now left.
Qed.

Lemma ffmpeg_path_exists_witness :
  snd (get_ffmpeg_path bundled_host) = lit "/bundle/ffmpeg.exe" /\
  snd (get_ffmpeg_path bare_host) = lit "ffmpeg".
Proof.
  destruct (ffmpeg_path_exists bundled_host) as (W1 & _).
  destruct (ffmpeg_path_exists bare_host) as (_ & _ & W3 & _).
  split; [exact (W1 eq_refl) | exact (W3 eq_refl eq_refl)].
Defined.

(** ** The preview *)

(** On the integers a machine word holds, [float(z)] is the conversion
    of the processor. *)
Lemma float_of_Z_prim z :
  0 <= z < 2 ^ 62 -> float_of_Z z = PrimFloat.of_uint63 (Uint63.of_Z z).
Proof.
  intros Hz. unfold float_of_Z.
  rewrite <- (SF2Prim_Prim2SF (PrimFloat.of_uint63 (Uint63.of_Z z))).
  rewrite of_uint63_spec, Uint63.of_Z_spec, Z.mod_small; [reflexivity|].
  change Uint63.wB with (2 ^ 63). lia.
Qed.

(** A number that passes [half_ok] is halved by [scaled]. *)
Lemma half_ok_scaled n : 0 <= n < 2 ^ 62 -> half_ok n = true -> scaled n = Ok (n / 2).
Proof.
  intros Hn H. unfold scaled, num_mul, py_int, to_float.
  rewrite (float_of_Z_prim n Hn). unfold half_ok in H. unfold int_of_float.
  destruct (Prim2SF _) as [s|s| |s m e]; try discriminate.
  - apply Z.eqb_eq in H. now rewrite H.
  - destruct s; [discriminate|]. apply andb_prop in H. destruct H as [He Hm].
    apply Z.ltb_lt in He. apply Z.eqb_eq in Hm.
    replace (0 <=? e) with false by (symmetry; apply Z.leb_gt; lia).
    rewrite <- Hm, Z.shiftr_div_pow2 by lia. reflexivity.
Qed.

Lemma halving_checked_spec k : forall n0 n,
  halving_checked k n0 = true -> n0 <= n < n0 + Z.of_nat k -> half_ok n = true.
Proof.
  induction k as [|k IH]; intros n0 n H Hn; [lia|].
  cbn [halving_checked] in H. apply andb_prop in H. destruct H as [H0 Hr].
  destruct (Z.eq_dec n n0) as [->|Hne]; [exact H0|].
  apply (IH (n0 + 1)); [exact Hr|lia].
Qed.

(** Halving agrees with the integer division from 0 to 7680, by
    evaluation. *)
Lemma halving_7681 : halving_checked (Z.to_nat 7681) 0 = true.
Proof. vm_compute. reflexivity. Qed.

Lemma scaled_half x : 0 <= x <= 7680 -> scaled x = Ok (x / 2).
Proof.
  intros Hx. apply half_ok_scaled; [lia|].
  apply (halving_checked_spec _ 0 x halving_7681). lia.
Qed.

Section WithPillow.

Context {pil : Pillow}.

(** X26.  The preview is drawn at half size: for a width, a height, a
    font size and a line spacing between 0 and 7680, which covers every
    value the spin boxes of the window can hold, the parameters of the
    preview are those of the window with these four halved, rounding
    down, and every other one as it is; the frame is rendered with them
    at [slider_value / 100] seconds and has half the width and half the
    height; without lyrics nothing is rendered. *)
Theorem preview_half_size (prm : params) (lyrics : list LyricLine) (slider_value : Z) :
  0 <= width prm <= 7680 -> 0 <= height prm <= 7680 ->
  0 <= font_size prm <= 7680 -> 0 <= line_spacing prm <= 7680 ->
  let cp := {|
    width := width prm / 2; height := height prm / 2;
    font_size := font_size prm / 2; line_spacing := line_spacing prm / 2;
    duration := duration prm; bitrate := bitrate prm;
    visible_lines := visible_lines prm; align := align prm;
    font_path := font_path prm; font_color := font_color prm;
    scale_decay := scale_decay prm; fade_decay := fade_decay prm;
    blur_base := blur_base prm; blur_inc := blur_inc prm;
    meta_title := meta_title prm; meta_artist := meta_artist prm;
    meta_album := meta_album prm; shadow := shadow prm; stroke := stroke prm
  |} in
  update_preview prm [] slider_value = None /\
  preview_params prm = Ok cp /\
  forall line rest,
    update_preview prm (line :: rest) slider_value
    = Some (render (init cp (line :: rest)) (float_of_Z slider_value / 100)%float) /\
    forall img,
      update_preview prm (line :: rest) slider_value = Some (Ok img) ->
      size_of img = (width prm / 2, height prm / 2,
                     Z.to_nat (width prm / 2 * (height prm / 2))).
Proof.
  intros Hw Hh Hf Hl cp. split; [reflexivity|].
  assert (Hcp : preview_params prm = Ok cp).
  { unfold preview_params.
    rewrite (scaled_half _ Hw), (scaled_half _ Hh), (scaled_half _ Hf),
      (scaled_half _ Hl).
    reflexivity. }
  split; [exact Hcp|].
  intros line rest. unfold update_preview. rewrite Hcp. cbn [bind].
  split; [reflexivity|].
  intros img [= H]. apply render_size in H. rewrite init_p in H.
  now destruct H as [H _].
Qed.

End WithPillow.

Lemma preview_half_size_witness :
  exists img,
    @update_preview box_pillow small_params track3 250 = Some (Ok img) /\
    size_of img = (2, 50, 100%nat).
Proof.
  destruct (@preview_half_size box_pillow small_params track3 250
              ltac:(cbn; lia) ltac:(cbn; lia) ltac:(cbn; lia) ltac:(cbn; lia))
    as (_ & _ & W).
  destruct (W (mkLine 0 (lit "a")) [mkLine 2 (lit "b"); mkLine 5 (lit "c")]) as [W1 W2].
  destruct (@update_preview box_pillow small_params track3 250) as [[img|e]|] eqn:U.
  - exists img. split; [reflexivity|]. exact (W2 img U).
  - exfalso. revert U. vm_compute. discriminate.
  - exfalso. revert U. vm_compute. discriminate.
Defined.

(** ** Loading a track *)

(** A significand has at most 53 bits. *)
Lemma digits2_pos_bound m : Z.pos m < 2 ^ Z.pos (digits2_pos m).
Proof.
  induction m as [m IH|m IH|]; cbn [digits2_pos]; [| |reflexivity];
    rewrite Pos2Z.inj_succ, Z.pow_succ_r by lia; lia.
Qed.

Lemma mantissa_bound f s m e : Prim2SF f = S754_finite s m e -> Z.pos m < 2 ^ 53.
Proof.
  intros H. pose proof (Prim2SF_valid f) as V. rewrite H in V.
  unfold valid_binary, bounded, canonical_mantissa, fexp in V.
  apply andb_prop in V. destruct V as [V _].
  apply Z.eqb_eq in V.
  pose proof (digits2_pos_bound m) as D.
  assert (L : Z.pos (digits2_pos m) <= 53) by (unfold prec in V; lia).
  eapply Z.lt_le_trans; [exact D|]. apply Z.pow_le_mono_r; lia.
Qed.

(** [int] of a float from 0 up to 6040, 6040 left out, raises nothing and
    stays in these bounds. *)
Lemma int_of_float_below f :
  (0 <=? f)%float = true -> (f <? 6040)%float = true ->
  exists d, int_of_float f = Ok d /\ 0 <= d < 6040.
Proof.
  rewrite leb_spec, ltb_spec. unfold SFleb, SFltb. rewrite !SFcompare_rank.
  unfold int_of_float.
  change (Prim2SF 0) with (S754_zero false).
  change (Prim2SF 6040) with (S754_finite false 6641050231767040 (-40)).
  destruct (Prim2SF f) as [s|s| |s m e] eqn:P; cbn [rank].
  - intros _ _. exists 0. split; [reflexivity|lia].
  - destruct s; cbn; discriminate.
  - discriminate.
  - destruct s; [cbn; discriminate|]. intros _ H.
    assert (L : lex (1, e, Z.pos m) (1, -40, 6641050231767040) = Lt)
      by (destruct (lex _ _); congruence).
    apply lex_lt_iff in L.
    pose proof (mantissa_bound _ _ _ _ P) as M.
    assert (He : e <= -40) by lia.
    replace (0 <=? e) with false by (symmetry; apply Z.leb_gt; lia).
    eexists. split; [reflexivity|].
    assert (Hp : 2 ^ 40 <= 2 ^ (- e)) by (apply Z.pow_le_mono_r; lia).
    split; [apply Z.div_pos; lia|].
    apply Z.div_lt_upper_bound; [lia|].
    destruct L as [L|[_ [L|[L1 L2]]]]; [lia| |].
    + assert (Hq : 2 ^ 41 <= 2 ^ (- e)) by (apply Z.pow_le_mono_r; lia).
      change (2 ^ 53) with 9007199254740992 in M.
      change (2 ^ 41) with 2199023255552 in Hq. lia.
    + subst e. change (2 ^ (- -40)) with 1099511627776. lia.
Qed.

Lemma leb_refl x : (0 <=? x)%float = true -> (x <=? x)%float = true.
Proof.
  intros H. apply leb_rank in H. destruct H as [[[a b] c] H].
  rewrite leb_spec. unfold SFleb. rewrite SFcompare_rank, H.
  replace (lex (a, b, c) (a, b, c)) with Eq; [reflexivity|].
  symmetry. now apply lex_eq_iff.
Qed.

(** On a track in ascending order no timestamp is above the last. *)
Lemma ascending_last first rest :
  Spec.ascending (first :: rest) ->
  Forall (fun e => (0 <=? time e)%float = true) (first :: rest) ->
  Forall (fun e => (time e <=? time (last rest first))%float = true) (first :: rest).
Proof.
  unfold Spec.ascending. revert first.
  induction rest as [|x r IH]; intros first Hs Hp.
  - constructor; [|constructor]. cbn [last]. apply leb_refl. now inversion Hp.
  - inversion Hs as [|? ? Hs' Hf]; subst. inversion Hp as [|? ? _ Hp']; subst.
    specialize (IH x Hs' Hp').
    assert (E : last (x :: r) first = last r x).
    { destruct r as [|y r']; [reflexivity|].
      change (last (y :: r') first = last (y :: r') x).
      clear. revert y. induction r' as [|z r'' IH']; intros y; [reflexivity|].
      change (last (z :: r'') first = last (z :: r'') x). apply IH'. }
    rewrite E. constructor; [|exact IH].
    inversion IH as [|? ? Hx _]; subst.
    inversion Hf as [|? ? Hfx _]; subst.
    eapply leb_trans; eassumption.
Qed.

Lemma parse_times_bounded {db : UnicodeDb} fs file_path l :
  parse fs file_path = Ok l ->
  Forall (fun e => (0 <=? time e)%float = true /\ (time e <? 6040)%float = true) l.
Proof.
  apply LrcParserExtras.parse_forall. intros line e.
  destruct (parse_line_cases line)
    as [H | (mm & ss & ms & txt & H & Ht & Hs & Rm & Rs & Rv)];
    rewrite H; [discriminate|].
  intros [= <-]. cbn [time]. split.
  - now apply total_seconds_nonneg.
  - now apply LrcParserExtras.total_seconds_below.
Qed.

(** X27.  Loading a file whose parsing raises nothing raises nothing: a
    track without entries only schedules the preview; otherwise the last
    entry holds the greatest timestamp of the track, [int] of it is a whole
    number of seconds from 0 to 6039, the duration is set to that number
    plus 5 and the slider to 100 steps for each second of the duration. *)
Theorem load_lrc_duration {db : UnicodeDb} (fs : str -> fs_entry) (path : str)
  (held parsed : list LyricLine) :
  path <> [] -> parse fs path = Ok parsed ->
  match parsed with
  | [] => load_lrc fs path held = Ok ([], [SetLrcLabel path; SchedulePreview])
  | first :: rest =>
      exists seconds,
        int_of_float (time (last rest first)) = Ok seconds /\
        0 <= seconds < 6040 /\
        Forall (fun e => (time e <=? time (last rest first))%float = true) parsed /\
        load_lrc fs path held
        = Ok (parsed, [SetLrcLabel path; SetDuration (seconds + 5);
                       SetSliderRange 0 ((seconds + 5) * 100); SchedulePreview])
  end.
Proof.
  intros Hne Hp. unfold load_lrc. rewrite Hp. cbn [bind].
  destruct path as [|c path']; [congruence|].
  destruct parsed as [|first rest]; [reflexivity|].
  pose proof (parse_times_bounded _ _ _ Hp) as B.
  assert (Hs : Spec.ascending (first :: rest)).
  { destruct (LrcParserProperties.parse_inv _ _ _ Hp) as (appended & E & Hv & _).
    rewrite E. apply sort_ascending. eapply Forall_impl; [|exact Hv].
    now intros e [_ He]. }
  assert (Hl : In (last rest first) (first :: rest)).
  { destruct rest as [|x r]; [now left|]. right.
    destruct (@exists_last _ (x :: r) ltac:(discriminate)) as (r' & y & E).
    rewrite E, last_last. apply in_or_app. right. now left. }
  rewrite Forall_forall in B. destruct (B _ Hl) as [B0 B1].
  destruct (int_of_float_below _ B0 B1) as (d & Hd & Hr).
  exists d. rewrite Hd. cbn [bind]. repeat split; try lia.
  apply ascending_last; [exact Hs|].
  apply Forall_forall. intros e He. apply (B e He).
Qed.

Lemma load_lrc_duration_witness :
  exists l, @load_lrc ascii_db disk song_path []
            = Ok (l, [SetLrcLabel song_path; SetDuration 10;
                      SetSliderRange 0 1000; SchedulePreview]).
Proof.
  pose (l := [mkLine 0 (lit "a"); mkLine 2 (lit "b"); mkLine 2 (lit "b again");
              mkLine 5 (lit "c")]).
  destruct (@load_lrc_duration ascii_db disk song_path [] l
              ltac:(discriminate) eq_refl) as (d & Hd & _ & _ & W).
  exists l. rewrite W. injection Hd as <-. reflexivity.
Defined.

End WindowExtras.
